(** * sample-player: voices, their life cycle and the player's registry

    A shallow embedding of [src/index.js] (the [Sample] voice, the [Player]
    and the private helpers [from], [centsToRate] and [adsr]) together with
    the properties of its specification.

    Conventions of the embedding.
    - The host audio runtime (Web Audio nodes and the [adsr] envelope
      generator) is an external collaborator.  It is modelled by the calls
      the code makes on it, recorded in order in [calls], by its clock
      [currentTime], and by the one value the code reads back from it: the
      release end returned by [env.stop(at)], the field [release_end].
      While a voice is built, stopped or ended the host is a recorder: its
      own validation of arguments is not part of this code.  Where
      [Player.start] hands the new voice to [s.start], after it has
      registered it, the calls of [s.start] are answered by the caller's
      sink and by the host, which may throw (an invalid time, a sink that
      raises): [refuses] says which calls they answer by throwing.
    - JavaScript numbers used as times and option values are rationals
      (no rounding, no infinities); [undefined] and [NaN] are kept apart
      because [||], [>] and [+] treat them specially.  The playback rate
      [Math.pow(2, x)] is the real power function.
    - Voice ids are integers, and so are the ids passed to [stop]; a
      property key of the registry is the decimal string of such an integer,
      so the registry is a finite map on [Z], [Object.keys] lists its keys in
      ascending order, and a key string is identified with the integer it
      denotes.  The counter [nextId] is an exact integer.
    - Plain objects used as option hashes are finite maps from names to
      values (own properties only).  Where the objects themselves matter
      (does the accessor write to a hash it was given?) they live in a
      store [Objects] and are passed by reference.
    - Events are delivered to the sink [event]; the sink is an observer and
      every delivery is recorded in [calls]. *)

From Stdlib Require Import ZArith QArith Qreals Reals Lra List String.
From stdpp Require Import base option list gmap sorting strings.

Local Set Warnings "-register-all".
Local Open Scope Z_scope.
Local Open Scope string_scope.
Local Open Scope list_scope.

(** ** JavaScript values seen by the code *)

(** A numeric argument that may be omitted ([when], [duration]). *)
Inductive jsnum :=
| Undefined
| NaN
| Num (q : Q).

(** [x || y] where [y] is a number: [x] when it is truthy, that is a number
    other than zero, else [y]. *)
Definition js_or (x : jsnum) (y : Q) : Q :=
  match x with
  | Num q => if Qeq_bool q 0 then y else q
  | Undefined | NaN => y
  end.

(** [x + y] on numeric arguments: [undefined + y] and [NaN + y] are [NaN]. *)
Definition js_add (x y : jsnum) : jsnum :=
  match x, y with
  | Num a, Num b => Num (a + b)
  | _, _ => NaN
  end.

(** [x > 0]: false on [undefined] and [NaN]. *)
Definition js_gt0 (x : jsnum) : bool :=
  match x with
  | Num q => negb (Qle_bool q 0)
  | Undefined | NaN => false
  end.

(** Option values. *)
Inductive value :=
| VUndef
| VNull
| VBool (b : bool)
| VNum (q : Q)
| VStr (s : string)
| VArr (l : list value).

(** The errors: the [TypeError] of the language, and an error raised by the
    caller's sink or by the host, with its name. *)
Inductive error :=
| TypeError
| Raised (name : string).

Inductive outcome (A : Type) :=
| Return (a : A)
| Throw (e : error).
Arguments Return {A} a.
Arguments Throw {A} e.

(** [a[i]]: a [TypeError] on [undefined] and [null], the element of an array,
    the character of a string, [undefined] on the other primitives. *)
Definition index (a : value) (i : nat) : outcome value :=
  match a with
  | VUndef | VNull => Throw TypeError
  | VArr l => Return (nth i l VUndef)
  | VStr s =>
      Return (match String.get i s with
              | Some c => VStr (String c EmptyString)
              | None => VUndef
              end)
  | VNum _ | VBool _ => Return VUndef
  end.

(** ** Option resolution *)

(** Default sample options. *)
Definition DEFAULTS : gmap string value :=
  {[ "gain" := VNum 1;
     "loop" := VBool false;
     "pitch" := VNum 0;
     "loopStart" := VNum 0;
     "loopEnd" := VNum 0;
     "adsr" := VArr [VNum (1 # 100); VNum (1 # 10); VNum (8 # 10); VNum (3 # 10)];
     "filter" := VStr "highpass";
     "freq" := VNum 0 ]}.

(** [c[name]] on a hash: [undefined] when the name is absent. *)
Definition get (c : gmap string value) (name : string) : value :=
  default VUndef (c !! name).

(** [from(a, b, c)]: the accessor
    [name in a ? a[name] : (name in b ? b[name] : c[name])]. *)
Definition from (a b c : gmap string value) (name : string) : value :=
  match a !! name with
  | Some v => v
  | None =>
      match b !! name with
      | Some v => v
      | None => get c name
      end
  end.

(** The hashes as the code shares them: objects in a store, passed by
    reference.  [name in o] and [o[name]] read the store; on a reference
    that holds no object they throw. *)
Definition Objects := gmap nat (gmap string value).

Definition has_name (r : nat) (name : string) (σ : Objects)
    : Objects * outcome bool :=
  (σ, match σ !! r with
      | Some o => Return (bool_decide (is_Some (o !! name)))
      | None => Throw TypeError
      end).

Definition read_name (r : nat) (name : string) (σ : Objects)
    : Objects * outcome value :=
  (σ, match σ !! r with
      | Some o => Return (get o name)
      | None => Throw TypeError
      end).

(** The accessor of [from(a, b, c)] on three references. *)
Definition from_refs (a b c : nat) (name : string) (σ : Objects)
    : Objects * outcome value :=
  match has_name a name σ with
  | (σ1, Throw e) => (σ1, Throw e)
  | (σ1, Return true) => read_name a name σ1
  | (σ1, Return false) =>
      match has_name b name σ1 with
      | (σ2, Throw e) => (σ2, Throw e)
      | (σ2, Return true) => read_name b name σ2
      | (σ2, Return false) => read_name c name σ2
      end
  end.

(** ** Pitch to playback rate *)

(** [centsToRate(cents) = Math.pow(2, cents / 1200)]. *)
Definition centsToRate (cents : R) : R := Rpower 2 (cents / 1200).

(** The value assigned to [source.playbackRate.value]. *)
Inductive rate :=
| Rate (r : R)
| RateCoerced (pitch : value).

(** [centsToRate(opts('pitch') * 100)]; on a pitch that is not a number the
    product goes through the language's coercion and is kept symbolic. *)
Definition pitch_rate (pitch : value) : rate :=
  match pitch with
  | VNum q => Rate (centsToRate (Q2R (q * 100)))
  | v => RateCoerced v
  end.

(** ** The host audio runtime *)

Inductive kind := KSource | KFilter | KAmp | KEnv.

(** Audio nodes: the player's shared output and the four nodes of a voice. *)
Inductive node :=
| Output
| Of (v : nat) (k : kind).

(** What a node is connected to: a node of the caller, one of ours, or the
    gain parameter of one of ours. *)
Inductive dest :=
| External (d : nat)
| Node (n : node)
| Gain (n : node).

Global Instance kind_eq_dec : EqDecision kind.
Proof. solve_decision. Defined.
Global Instance node_eq_dec : EqDecision node.
Proof. solve_decision. Defined.

(** The calls made on the host, on the event sink and on the end-of-life
    callback. *)
Inductive action :=
| Create (n : node)
| SetProp (n : node) (prop : string) (v : value)
| SetBuffer (n : node) (buffer : option nat)
| SetRate (n : node) (r : rate)
| Connect (n : node) (d : dest)
| Disconnect (n : node)
| Start (n : node) (when : jsnum)
| Stop (n : node) (when : jsnum)
| Event (name : string) (v : nat) (when : jsnum)
| Onended (v : nat).

(** [s.onended]: the no-op of the prototype, or the closure installed by
    [Player.start], [function () { delete tracked[s.id] }]. *)
Inductive callback :=
| Noop
| DeleteTracked.

(** A [Sample] object: its identity [voice] (which names its four nodes) and
    the two fields assigned after construction. *)
Record Sample := {
  voice : nat;
  id : option Z;
  onended : callback;
}.

(** The audio context as the code sees it.  [sources] holds, for every
    source node whose [onended] handler has not fired, the [Sample] object
    the handler closes over; [refuses] gives the error with which the sink
    or the host answers a call of [s.start], if they throw on it. *)
Record Host := {
  currentTime : Q;
  calls : list action;
  allocated : nat;
  sources : gmap nat Sample;
  release_end : nat -> Q -> Q;
  refuses : action -> option error;
}.

Definition log (l : list action) (h : Host) : Host :=
  {| currentTime := currentTime h;
     calls := calls h ++ l;
     allocated := allocated h;
     sources := sources h;
     release_end := release_end h;
     refuses := refuses h |}.

Definition store (s : Sample) (h : Host) : Host :=
  {| currentTime := currentTime h;
     calls := calls h;
     allocated := allocated h;
     sources := <[voice s := s]> (sources h);
     release_end := release_end h;
     refuses := refuses h |}.

Definition forget (v : nat) (h : Host) : Host :=
  {| currentTime := currentTime h;
     calls := calls h;
     allocated := allocated h;
     sources := delete v (sources h);
     release_end := release_end h;
     refuses := refuses h |}.

Definition advance (dt : Q) (h : Host) : Host :=
  {| currentTime := if Qle_bool 0 dt then currentTime h + dt else currentTime h;
     calls := calls h;
     allocated := allocated h;
     sources := sources h;
     release_end := release_end h;
     refuses := refuses h |}.

(** ** Computations on the host that may throw *)

Definition M (A : Type) : Type := Host -> Host * outcome A.

Definition ret {A} (a : A) : M A := fun h => (h, Return a).

Definition bind {A B} (m : M A) (k : A -> M B) : M B :=
  fun h =>
    match m h with
    | (h', Return a) => k a h'
    | (h', Throw e) => (h', Throw e)
    end.

Notation "x <- m ;; k" := (bind m (fun x => k))
  (at level 100, m at next level, right associativity).
Notation "m ;; k" := (bind m (fun _ => k))
  (at level 100, right associativity).

Definition lift {A} (o : outcome A) : M A := fun h => (h, o).

Definition call (l : list action) : M unit := fun h => (log l h, Return tt).

(** [new]: a fresh object identity. *)
Definition alloc : M nat :=
  fun h =>
    ({| currentTime := currentTime h;
        calls := calls h;
        allocated := S (allocated h);
        sources := sources h;
        release_end := release_end h;
        refuses := refuses h |},
     Return (allocated h)).

(** ** The voice *)

(** The [options] argument of [Sample]. *)
Inductive options_arg :=
| OptFunction (f : string -> value)
| OptHash (a : gmap string value)
| OptMissing.

(** [typeof options === 'function' ? options : from(options, {}, {})];
    on a missing [options] the accessor throws at [name in a]. *)
Definition accessor (options : options_arg) (name : string) : outcome value :=
  match options with
  | OptFunction f => Return (f name)
  | OptHash a => Return (from a ∅ ∅ name)
  | OptMissing => Throw TypeError
  end.

(** The body of [adsr]'s [reduce]: [env[n] = adsr[i]] for each name. *)
Fixpoint adsr_reduce (env : node) (a : value) (names : list string) (i : nat) : M unit :=
  match names with
  | [] => ret tt
  | n :: rest =>
      x <- lift (index a i) ;;
      call [SetProp env n x] ;;
      adsr_reduce env a rest (S i)
  end.

(** [adsr(ac, adsr)]: an envelope with the four parameters set in order. *)
Definition adsr (env : node) (a : value) : M unit :=
  call [Create env] ;;
  adsr_reduce env a ["attack"; "decay"; "sustain"; "release"] 0.

(** [destination.context]: a [TypeError] on a missing destination. *)
Definition context_of (destination : option dest) : outcome dest :=
  match destination with
  | Some d => Return d
  | None => Throw TypeError
  end.

(** [new Sample(buffer, destination, options, event)]. *)
Definition Sample_new (buffer : option nat) (destination : option dest)
    (options : options_arg) : M Sample :=
  v <- alloc ;;
  let opts := accessor options in
  d <- lift (context_of destination) ;;
  call [Create (Of v KAmp);
        SetProp (Of v KAmp) "gain.value" (VNum 0);
        Connect (Of v KAmp) d] ;;
  a <- lift (opts "adsr") ;;
  adsr (Of v KEnv) a ;;
  g <- lift (opts "gain") ;;
  call [SetProp (Of v KEnv) "value.value" g;
        Connect (Of v KEnv) (Gain (Of v KAmp));
        Create (Of v KFilter)] ;;
  t <- lift (opts "filter") ;;
  call [SetProp (Of v KFilter) "type" t] ;;
  f <- lift (opts "freq") ;;
  call [SetProp (Of v KFilter) "frequency.value" f;
        Connect (Of v KFilter) (Node (Of v KAmp));
        Create (Of v KSource);
        SetBuffer (Of v KSource) buffer] ;;
  l <- lift (opts "loop") ;;
  call [SetProp (Of v KSource) "loop" l;
        Connect (Of v KSource) (Node (Of v KFilter))] ;;
  p <- lift (opts "pitch") ;;
  call [SetRate (Of v KSource) (pitch_rate p)] ;;
  ls <- lift (opts "loopStart") ;;
  call [SetProp (Of v KSource) "loopStart" ls] ;;
  le <- lift (opts "loopEnd") ;;
  call [SetProp (Of v KSource) "loopEnd" le] ;;
  let s := {| voice := v; id := None; onended := Noop |} in
  (fun h => (store s h, Return s)).

(** [Sample.prototype.stop]. *)
Definition Sample_stop (v : nat) (when : jsnum) (h : Host) : Host :=
  let at_ := js_or when (currentTime h) in
  let stopAt := release_end h v at_ in
  log [Event "stop" v when;
       Stop (Of v KEnv) (Num at_);
       Stop (Of v KSource) (Num stopAt)] h.

(** [Sample.prototype.start]. *)
Definition Sample_start (v : nat) (when duration : jsnum) (h : Host) : Host :=
  let h1 := log [Event "start" v when;
                 Start (Of v KEnv) when;
                 Start (Of v KSource) when] h in
  if js_gt0 duration then Sample_stop v (js_add when duration) h1 else h1.

(** The calls of the [source.onended] handler of voice [v]. *)
Definition ended_calls (v : nat) : list action :=
  [Event "ended" v Undefined;
   Stop (Of v KSource) Undefined;
   Disconnect (Of v KSource);
   Disconnect (Of v KFilter);
   Disconnect (Of v KAmp);
   Disconnect (Of v KEnv);
   Onended v].

(** [s.onended(this)] on the registry [tracked] of the owning player. *)
Definition run_callback (s : Sample) (tracked : gmap Z nat) : gmap Z nat :=
  match onended s with
  | Noop => tracked
  | DeleteTracked =>
      match id s with
      | Some i => delete i tracked
      | None => tracked
      end
  end.

(** The [source.onended] handler installed by the constructor. *)
Definition source_onended (s : Sample) (st : Host * gmap Z nat) : Host * gmap Z nat :=
  (log (ended_calls (voice s)) (fst st), run_callback s (snd st)).

(** The host fires the one-shot notification of the source of voice [v]. *)
Definition fire (v : nat) (st : Host * gmap Z nat) : Host * gmap Z nat :=
  match sources (fst st) !! v with
  | Some s => source_onended s (forget v (fst st), snd st)
  | None => st
  end.

(** ** The player *)

Record Player := {
  ac : Host;
  options : gmap string value;
  nextId : Z;
  _playing : gmap Z nat;
}.

(** [new Player(ac, options)]; [destination] is given when the first
    argument is a node rather than the context. *)
Definition Player_new (h : Host) (destination : option dest)
    (opts : option (gmap string value)) : Player :=
  {| ac := match destination with
           | Some d => log [Create Output; Connect Output d] h
           | None => log [Create Output] h
           end;
     options := default ∅ opts;
     nextId := 1;
     _playing := ∅ |}.

(** The calls a sequence of calls [f] makes on [h] when none of them
    throws. *)
Definition made (f : Host -> Host) (h : Host) : list action :=
  drop (length (calls h)) (calls (f h)).

(** The first call of [l] that is answered by throwing, with the calls made
    up to and including it. *)
Fixpoint refused (r : action -> option error) (l : list action)
    : option (list action * error) :=
  match l with
  | [] => None
  | a :: rest =>
      match r a with
      | Some e => Some ([a], e)
      | None =>
          match refused r rest with
          | Some (made_, e) => Some (a :: made_, e)
          | None => None
          end
      end
  end.

(** The sequence of calls [f] on a host that may throw: the calls are made
    in order and the first one that throws ends the sequence. *)
Definition attempt (f : Host -> Host) (h : Host) : Host * outcome unit :=
  match refused (refuses h) (made f h) with
  | None => (f h, Return tt)
  | Some (made_, e) => (log made_ h, Throw e)
  end.

(** [Player.prototype.start].  The voice is given its id and registered
    before [s.start] runs: an error thrown by [s.start] leaves it
    registered. *)
Definition Player_start (buffer : option nat) (when duration : jsnum)
    (opts : option (gmap string value)) (destination : option dest)
    (p : Player) : Player * outcome Sample :=
  let when := Num (js_or when (currentTime (ac p))) in
  let o := from (default ∅ opts) (options p) DEFAULTS in
  match Sample_new buffer (Some (default (Node Output) destination))
          (OptFunction o) (ac p) with
  | (h, Throw e) =>
      ({| ac := h; options := options p; nextId := nextId p;
          _playing := _playing p |}, Throw e)
  | (h, Return s0) =>
      let s := {| voice := voice s0; id := Some (nextId p);
                  onended := DeleteTracked |} in
      let started := attempt (Sample_start (voice s) when duration)
                       (store s h) in
      ({| ac := fst started;
          options := options p;
          nextId := nextId p + 1;
          _playing := <[nextId p := voice s]> (_playing p) |},
       match snd started with
       | Return _ => Return s
       | Throw e => Throw e
       end)
  end.

(** The [ids] argument of [Player.prototype.stop]. *)
Inductive ids_arg :=
| IdsMissing
| IdsOne (i : Z)
| IdsArray (l : list Z).

(** [!ids]. *)
Definition falsy (ids : ids_arg) : bool :=
  match ids with
  | IdsMissing => true
  | IdsOne i => (i =? 0)%Z
  | IdsArray _ => false
  end.

Inductive stop_result :=
| One (r : option Z)
| Many (l : list (option Z)).

(** [stopById]: [None] is [null]. *)
Definition stopById (i : Z) (st : Host * gmap Z nat) : Host * gmap Z nat * option Z :=
  match snd st !! i with
  | None => (st, None)
  | Some p => ((Sample_stop p Undefined (fst st), delete i (snd st)), Some i)
  end.

(** [ids.map(stopById)]. *)
Fixpoint map_stopById (l : list Z) (st : Host * gmap Z nat)
    : Host * gmap Z nat * list (option Z) :=
  match l with
  | [] => (st, [])
  | i :: rest =>
      let '(st1, r) := stopById i st in
      let '(st2, rs) := map_stopById rest st1 in
      (st2, r :: rs)
  end.

(** [Object.keys(tracked)]: the integer keys in ascending order. *)
Definition Object_keys (tracked : gmap Z nat) : list Z :=
  merge_sort Z.le (elements (dom tracked)).

Definition with_state (p : Player) (st : Host * gmap Z nat) : Player :=
  {| ac := fst st; options := options p; nextId := nextId p;
     _playing := snd st |}.

(** [Player.prototype.stop]. *)
Definition Player_stop (when : jsnum) (ids : ids_arg) (p : Player)
    : Player * stop_result :=
  let when := js_or when 0 in
  let st := (ac p, _playing p) in
  if falsy ids then
    let '(st', rs) := map_stopById (Object_keys (_playing p)) st in
    (with_state p st', Many rs)
  else
    match ids with
    | IdsArray l =>
        let '(st', rs) := map_stopById l st in
        (with_state p st', Many rs)
    | IdsOne i =>
        let '(st', r) := stopById i st in
        (with_state p st', One r)
    | IdsMissing => (p, Many [])
    end.

(** [Player.prototype.connect]. *)
Definition Player_connect (destination : dest) (p : Player) : Player :=
  with_state p (log [Connect Output destination] (ac p), _playing p).

(** ** Runs of a player *)

Inductive op :=
| OpStart (buffer : option nat) (when duration : jsnum)
    (opts : option (gmap string value)) (destination : option dest)
| OpStop (when : jsnum) (ids : ids_arg)
| OpEnded (v : nat)
| OpAdvance (dt : Q).

Inductive reply :=
| Started (s : outcome Sample)
| Stopped (r : stop_result)
| Silent.

Definition step (o : op) (p : Player) : Player * reply :=
  match o with
  | OpStart buffer when duration opts destination =>
      let '(p', s) := Player_start buffer when duration opts destination p in
      (p', Started s)
  | OpStop when ids =>
      let '(p', r) := Player_stop when ids p in
      (p', Stopped r)
  | OpEnded v => (with_state p (fire v (ac p, _playing p)), Silent)
  | OpAdvance dt => (with_state p (advance dt (ac p), _playing p), Silent)
  end.

Fixpoint run (ops : list op) (p : Player) : Player * list reply :=
  match ops with
  | [] => (p, [])
  | o :: rest =>
      let '(p1, r) := step o p in
      let '(p2, rs) := run rest p1 in
      (p2, r :: rs)
  end.

(** The id assigned by a call, when it is a [start] that returned. *)
Definition assigned (r : reply) : option Z :=
  match r with
  | Started (Return s) => id s
  | _ => None
  end.

Definition started_ids (rs : list reply) : list Z := omap assigned rs.

(** ** Observing the calls *)

Definition is_event (name : string) (v : nat) (a : action) : bool :=
  match a with
  | Event e w _ => bool_decide (e = name ∧ w = v)
  | _ => false
  end.


(** The nodes owned by voice [v]. *)
Definition owned (v : nat) (n : node) : bool :=
  match n with
  | Of w _ => bool_decide (w = v)
  | Output => false
  end.


(** The calls that make up the end-of-life cleanup, of any voice. *)
Definition is_cleanup (a : action) : bool :=
  match a with
  | Disconnect _ | Onended _ => true
  | Event e _ _ => bool_decide (e = "ended")
  | _ => false
  end.

Definition count (f : action -> bool) (l : list action) : nat :=
  length (List.filter f l).

(** The time at which [env.stop] is called, for each voice: the [Stop] calls
    on envelope nodes. *)
Definition release_times (l : list action) : list (nat * jsnum) :=
  omap (fun a => match a with
                 | Stop (Of v KEnv) t => Some (v, t)
                 | _ => None
                 end) l.

(** The calls of [p.stop()] on voice [v]: the release is asked at the time
    the clock of [h] reads. *)
Definition stopped_now (h : Host) (v : nat) : list action :=
  [Event "stop" v Undefined;
   Stop (Of v KEnv) (Num (currentTime h));
   Stop (Of v KSource) (Num (release_end h v (currentTime h)))].

(** Whether a computation threw. *)
Definition throws {A} (r : Host * outcome A) : bool :=
  match snd r with
  | Throw _ => true
  | Return _ => false
  end.

(** Two hosts that differ by the calls received only. *)
Definition same_but_calls (h' h : Host) : Prop :=
  currentTime h' = currentTime h ∧
  release_end h' = release_end h ∧
  sources h' = sources h ∧
  allocated h' = allocated h.

(** The ids a call of [Player.stop] returned, nulls left out. *)
Definition stopped_ids (r : stop_result) : list Z :=
  match r with
  | One r => omap (λ x, x) [r]
  | Many rs => omap (λ x, x) rs
  end.

(** A [start] that returned. *)
Definition returned (r : reply) : bool :=
  match r with
  | Started (Return _) => true
  | _ => false
  end.

(** ** States used in the examples *)

(** A host whose clock reads 5 seconds, whose envelopes end their release
    0.3 seconds after they are asked to, and which refuses no call. *)
Definition host_at_5 : Host :=
  {| currentTime := 5;
     calls := [];
     allocated := 0;
     sources := ∅;
     release_end := fun _ at_ => (at_ + (3 # 10))%Q;
     refuses := fun _ => None |}.

(** A player connected to a destination of the caller. *)
Definition fresh_player : Player :=
  Player_new host_at_5 (Some (External 0)) None.

(** The same player after one [start(buffer)]. *)
Definition one_voice : Player :=
  fst (Player_start (Some 0%nat) Undefined Undefined None None fresh_player).

(** Three calls of [start], the last one with call-time options. *)
Definition three_starts : list op :=
  [OpStart (Some 0%nat) (Num 6) Undefined None None;
   OpStart (Some 1%nat) (Num 7) (Num 2) None None;
   OpStart (Some 0%nat) Undefined Undefined
     (Some {[ "loop" := VBool true ]}) None].

(** ** Further observations *)

(** The calls that build the graph: creating, setting and connecting. *)
Definition is_wiring (a : action) : bool :=
  match a with
  | Create _ | SetProp _ _ _ | SetBuffer _ _ | SetRate _ _ | Connect _ _ => true
  | _ => false
  end.

(** The connections made, in order. *)
Definition connections (l : list action) : list (node * dest) :=
  omap (fun a => match a with
                 | Connect n d => Some (n, d)
                 | _ => None
                 end) l.

(** The nodes created, in order. *)
Definition creations (l : list action) : list node :=
  omap (fun a => match a with
                 | Create n => Some n
                 | _ => None
                 end) l.

(** The values assigned to the properties of node [n], in order. *)
Definition settings (n : node) (l : list action) : list (string * value) :=
  omap (fun a => match a with
                 | SetProp m prop v =>
                     if bool_decide (m = n) then Some (prop, v) else None
                 | _ => None
                 end) l.

(** [a] is [undefined] or [null]: indexing it throws. *)
Definition nullish (a : value) : bool :=
  match a with
  | VUndef | VNull => true
  | _ => false
  end.

(** The envelope array the accessor of [options] resolves to, when the
    accessor can be called at all. *)
Definition resolved_adsr (options : options_arg) : option value :=
  match options with
  | OptFunction f => Some (f "adsr")
  | OptHash a => Some (get a "adsr")
  | OptMissing => None
  end.

(** A host on which no [Sample] object carries an id yet: the objects it
    holds were allocated by it and are named by their identity. *)
Definition fresh_host (h : Host) : Prop :=
  ∀ v s, sources h !! v = Some s →
         (v < allocated h)%nat ∧ voice s = v ∧ id s = None.

(** The registry and the pending end handlers agree: every registered id was
    assigned by this player, its voice still awaits its end notification
    under that id, and no two pending voices carry the same id. *)
Definition consistent (p : Player) : Prop :=
  (1 ≤ nextId p)%Z ∧
  (∀ i v, _playing p !! i = Some v →
          sources (ac p) !! v
          = Some {| voice := v; id := Some i; onended := DeleteTracked |}) ∧
  (∀ v s, sources (ac p) !! v = Some s →
          (v < allocated (ac p))%nat ∧ voice s = v ∧
          ∀ i, id s = Some i → (1 ≤ i < nextId p)%Z) ∧
  (∀ v v' s s' i, sources (ac p) !! v = Some s →
                  sources (ac p) !! v' = Some s' →
                  id s = Some i → id s' = Some i → v = v').

(** The ids a call [stop(when, ids)] tries to stop, in order: every key of
    the registry when [ids] is falsy. *)
Definition targets (ids : ids_arg) (p : Player) : list Z :=
  if falsy ids then Object_keys (_playing p)
  else match ids with
       | IdsArray l => l
       | IdsOne i => [i]
       | IdsMissing => []
       end.

(** The results of a call of [Player.stop], one for each target. *)
Definition results (r : stop_result) : list (option Z) :=
  match r with
  | One r => [r]
  | Many rs => rs
  end.

(** The start calls, with the times they carry. *)
Definition start_times (l : list action) : list (node * jsnum) :=
  omap (fun a => match a with
                 | Start n t => Some (n, t)
                 | _ => None
                 end) l.

(** The events delivered to the sink, in order. *)
Definition events (l : list action) : list (string * nat * jsnum) :=
  omap (fun a => match a with
                 | Event e v t => Some (e, v, t)
                 | _ => None
                 end) l.

(** The accessor of [options] as a function, when it can be called. *)
Definition resolver (options : options_arg) (name : string) : value :=
  match options with
  | OptFunction f => f name
  | OptHash a => from a ∅ ∅ name
  | OptMissing => VUndef
  end.

(** The calls of a constructor that returns, for voice [v]: [g] is the
    accessor and [x0] to [x3] are the first four elements of the envelope
    array. *)
Definition built (v : nat) (buffer : option nat) (d : dest)
    (g : string -> value) (x0 x1 x2 x3 : value) : list action :=
  [Create (Of v KAmp);
   SetProp (Of v KAmp) "gain.value" (VNum 0);
   Connect (Of v KAmp) d;
   Create (Of v KEnv);
   SetProp (Of v KEnv) "attack" x0;
   SetProp (Of v KEnv) "decay" x1;
   SetProp (Of v KEnv) "sustain" x2;
   SetProp (Of v KEnv) "release" x3;
   SetProp (Of v KEnv) "value.value" (g "gain");
   Connect (Of v KEnv) (Gain (Of v KAmp));
   Create (Of v KFilter);
   SetProp (Of v KFilter) "type" (g "filter");
   SetProp (Of v KFilter) "frequency.value" (g "freq");
   Connect (Of v KFilter) (Node (Of v KAmp));
   Create (Of v KSource);
   SetBuffer (Of v KSource) buffer;
   SetProp (Of v KSource) "loop" (g "loop");
   Connect (Of v KSource) (Node (Of v KFilter));
   SetRate (Of v KSource) (pitch_rate (g "pitch"));
   SetProp (Of v KSource) "loopStart" (g "loopStart");
   SetProp (Of v KSource) "loopEnd" (g "loopEnd")].

(** The call [a] is made on a node of voice [v], or is an event or a
    callback of voice [v]. *)
Definition concerns (v : nat) (a : action) : bool :=
  match a with
  | Create n | SetProp n _ _ | SetBuffer n _ | SetRate n _ | Connect n _
  | Disconnect n | Start n _ | Stop n _ => owned v n
  | Event _ w _ | Onended w => bool_decide (w = v)
  end.

(** ** Starting under a sink and a host that may throw *)

(** The calls of [s.start(when, duration)] on voice [v], in order, when none
    of them throws. *)
Definition scheduling (h : Host) (v : nat) (when duration : jsnum)
    : list action :=
  made (Sample_start v when duration) h.

(** The id the call [o] gave to the voice it constructed, read from that
    voice ([s.id]) after the call: none when [o] is not a [start] or when
    its constructor threw. *)
Definition given (o : op) (p : Player) : option Z :=
  match o with
  | OpStart _ _ _ _ _ =>
      sources (ac (fst (step o p))) !! allocated (ac p) ≫= id
  | _ => None
  end.

(** The ids given by the calls of a run, in call order. *)
Fixpoint assigned_ids (ops : list op) (p : Player) : list Z :=
  match ops with
  | [] => []
  | o :: rest =>
      match given o p with
      | Some i => i :: assigned_ids rest (fst (step o p))
      | None => assigned_ids rest (fst (step o p))
      end
  end.


(** [o] is a [start] whose constructor returns: the envelope array its
    options resolve to, over the player's defaults, can be indexed. *)
Definition constructs (defaults : gmap string value) (o : op) : bool :=
  match o with
  | OpStart _ _ _ opts _ =>
      negb (nullish (from (default ∅ opts) defaults DEFAULTS "adsr"))
  | _ => false
  end.

(** A host like [host_at_5] that answers a start at a negative time by a
    [RangeError]. *)
Definition strict_host : Host :=
  {| currentTime := 5;
     calls := [];
     allocated := 0;
     sources := ∅;
     release_end := fun _ at_ => (at_ + (3 # 10))%Q;
     refuses := fun a =>
                  match a with
                  | Start _ (Num q) =>
                      if Qle_bool 0 q then None
                      else Some (Raised "RangeError")
                  | _ => None
                  end |}.


(** Two calls of [start]; the first one asks for a negative start time. *)
Definition starts_negative_when : list op :=
  [OpStart (Some 0%nat) (Num (-1)) Undefined None None;
   OpStart (Some 0%nat) (Num 6) Undefined None None].

(** A player on the strict host. *)
Definition strict_player : Player :=
  Player_new strict_host (Some (External 0)) None.

(** * Properties *)

(** ** The option resolver *)

Lemma run_cons (o : op) (ops : list op) (p : Player) :
  run (o :: ops) p
  = (fst (run ops (fst (step o p))),
     snd (step o p) :: snd (run ops (fst (step o p)))).
Proof.
  cbn. destruct (step o p) as [p1 r]. cbn.
  destruct (run ops p1) as [p2 rs]. reflexivity.
Qed.

Lemma Player_start_options (buffer : option nat) (when duration : jsnum)
    (opts : option (gmap string value)) (destination : option dest)
    (p : Player) :
  options (fst (Player_start buffer when duration opts destination p))
  = options p.
Proof.
  unfold Player_start. destruct (Sample_new _ _ _ _) as [h [s|e]]; reflexivity.
Qed.

Lemma Player_stop_options (when : jsnum) (ids : ids_arg) (p : Player) :
  options (fst (Player_stop when ids p)) = options p.
Proof.
  unfold Player_stop. destruct (falsy ids).
  - destruct (map_stopById _ _) as [st rs]. reflexivity.
  - destruct ids as [|i|l]; [reflexivity| |].
    + destruct (stopById _ _) as [st r]. reflexivity.
    + destruct (map_stopById _ _) as [st rs]. reflexivity.
Qed.

Lemma step_options (o : op) (p : Player) :
  options (fst (step o p)) = options p.
Proof.
  destruct o as [buffer when duration opts destination|when ids|v|dt]; cbn.
  - pose proof (Player_start_options buffer when duration opts destination p).
    by destruct (Player_start _ _ _ _ _ _).
  - pose proof (Player_stop_options when ids p).
    by destruct (Player_stop _ _ _).
  - reflexivity.
  - reflexivity.
Qed.

Lemma run_options (ops : list op) : ∀ p : Player,
  options (fst (run ops p)) = options p.
Proof.
  induction ops as [|o ops IH]; intros p; [reflexivity|].
  rewrite run_cons. cbn [fst]. rewrite IH. apply step_options.
Qed.

(** C9: for every option name and every three hashes, the accessor returns
    the call-time value when the name is present there, else the value of
    the player defaults when present there, else the value the global
    defaults hold for it, and [undefined] when none of the three has the
    name.  The accessor only reads the hashes ([in] and [[]]): run on three
    references into a store of objects, two of which may be the same
    object, it returns that value and leaves the store, hence the three
    hashes, as it was.  Nothing the player does changes its defaults: they
    are the same after a call of [start], whether it returns or throws, and
    after any sequence of calls of [start] and [stop], end notifications
    and clock advances they are still the hash given to the constructor. *)
Theorem from_three_tiers (a b c : gmap string value) (name : string) :
  (∀ v, a !! name = Some v → from a b c name = v) ∧
  (∀ v, a !! name = None → b !! name = Some v → from a b c name = v) ∧
  (∀ v, a !! name = None → b !! name = None → c !! name = Some v →
        from a b c name = v) ∧
  (a !! name = None → b !! name = None → c !! name = None →
   from a b c name = VUndef) ∧
  (∀ (σ : Objects) ra rb rc,
     σ !! ra = Some a → σ !! rb = Some b → σ !! rc = Some c →
     from_refs ra rb rc name σ = (σ, Return (from a b c name))) ∧
  (∀ buffer when duration opts destination p,
     options (fst (Player_start buffer when duration opts destination p))
     = options p) ∧
  (∀ h destination opts ops,
     options (fst (run ops (Player_new h destination opts)))
     = default ∅ opts).
Proof.
  unfold from, get. split; [|split; [|split; [|split; [|split; [|split]]]]].
  - intros v ->. reflexivity.
  - intros v -> ->. reflexivity.
  - intros v -> -> ->. reflexivity.
  - intros -> -> ->. reflexivity.
  - intros σ ra rb rc Ha Hb Hc. unfold from_refs, has_name, read_name, get.
    rewrite Ha, Hb, Hc. destruct (a !! name) as [va|].
    + rewrite bool_decide_eq_true_2 by eauto. reflexivity.
    + rewrite bool_decide_eq_false_2 by (intros [? ?]; discriminate).
      destruct (b !! name) as [vb|].
      * rewrite bool_decide_eq_true_2 by eauto. reflexivity.
      * rewrite bool_decide_eq_false_2 by (intros [? ?]; discriminate).
        reflexivity.
  - apply Player_start_options.
  - intros h destination opts ops. rewrite run_options. reflexivity.
Qed.

Lemma from_three_tiers_witness :
  from {[ "gain" := VNum 2 ]} {[ "gain" := VNum 3; "loop" := VBool true ]}
    DEFAULTS "gain" = VNum 2
  ∧ from {[ "gain" := VNum 2 ]} {[ "gain" := VNum 3; "loop" := VBool true ]}
      DEFAULTS "loop" = VBool true
  ∧ from {[ "gain" := VNum 2 ]} {[ "gain" := VNum 3; "loop" := VBool true ]}
      DEFAULTS "filter" = VStr "highpass"
  ∧ from {[ "gain" := VNum 2 ]} {[ "gain" := VNum 3; "loop" := VBool true ]}
      DEFAULTS "volume" = VUndef
  ∧ from_refs 0 0 1 "freq"
      {[ 0%nat := {[ "gain" := VNum 2 ]}; 1%nat := DEFAULTS ]}
    = ({[ 0%nat := {[ "gain" := VNum 2 ]}; 1%nat := DEFAULTS ]},
       Return (VNum 0)).
Proof.
  pose proof (from_three_tiers {[ "gain" := VNum 2 ]}
                {[ "gain" := VNum 3; "loop" := VBool true ]} DEFAULTS) as T.
  split; [|split; [|split; [|split]]].
  - apply (proj1 (T "gain")). vm_compute. reflexivity.
  - apply (proj1 (proj2 (T "loop"))); vm_compute; reflexivity.
  - apply (proj1 (proj2 (proj2 (T "filter")))); vm_compute; reflexivity.
  - apply (proj1 (proj2 (proj2 (proj2 (T "volume"))))); vm_compute;
      reflexivity.
  - pose proof (proj1 (proj2 (proj2 (proj2 (proj2
                  (from_three_tiers {[ "gain" := VNum 2 ]}
                     {[ "gain" := VNum 2 ]} DEFAULTS "freq")))))
                  {[ 0%nat := {[ "gain" := VNum 2 ]}; 1%nat := DEFAULTS ]}
                  0%nat 0%nat 1%nat) as H.
    etransitivity; [apply H; vm_compute; reflexivity|].
    vm_compute. reflexivity.
Defined.

(** ** Pitch to rate *)

(** C10: for every pitch [p] in semitones the rate set on the source is
    [2^(p*100/1200) = 2^(p/12)], and the rate of pitch 0 is 1.  Numbers are
    real numbers here, [Math.pow] the real power. *)
Theorem centsToRate_semitones :
  (∀ p : R, centsToRate (p * 100) = Rpower 2 (p * 100 / 1200)
            ∧ centsToRate (p * 100) = Rpower 2 (p / 12)) ∧
  centsToRate 0 = 1%R ∧
  (∀ q : Q, pitch_rate (VNum q) = Rate (Rpower 2 (Q2R q / 12))) ∧
  pitch_rate (VNum 0) = Rate 1%R.
Proof.
  assert (H0 : centsToRate 0 = 1%R).
  { unfold centsToRate. replace (0 / 1200)%R with 0%R by lra.
    apply Rpower_O. lra. }
  assert (Hq : ∀ q : Q, pitch_rate (VNum q) = Rate (Rpower 2 (Q2R q / 12))).
  { intros q. unfold pitch_rate, centsToRate. f_equal. f_equal.
    rewrite Q2R_mult. replace (Q2R 100) with 100%R by (unfold Q2R; simpl; lra).
    lra. }
  repeat split.
  - unfold centsToRate. f_equal. lra.
  - exact H0.
  - exact Hq.
  - rewrite Hq. f_equal. replace (Q2R 0 / 12)%R with 0%R.
    + apply Rpower_O. lra.
    + unfold Q2R. simpl. lra.
Qed.

(** ** The voice *)

Lemma Sample_stop_calls (v : nat) (when : jsnum) (h : Host) :
  calls (Sample_stop v when h)
  = calls h ++ [Event "stop" v when;
                Stop (Of v KEnv) (Num (js_or when (currentTime h)));
                Stop (Of v KSource)
                  (Num (release_end h v (js_or when (currentTime h))))].
Proof. reflexivity. Qed.

Lemma Sample_stop_frame (v : nat) (when : jsnum) (h : Host) :
  currentTime (Sample_stop v when h) = currentTime h ∧
  release_end (Sample_stop v when h) = release_end h ∧
  sources (Sample_stop v when h) = sources h ∧
  allocated (Sample_stop v when h) = allocated h.
Proof. repeat split. Qed.

Lemma js_or_number (q y : Q) : ¬ (q == 0)%Q → js_or (Num q) y = q.
Proof.
  intros Hq. unfold js_or.
  destruct (Qeq_bool q 0) eqn:E; [|reflexivity].
  apply Qeq_bool_iff in E. contradiction.
Qed.

Lemma js_or_zero (q y : Q) : (q == 0)%Q → js_or (Num q) y = y.
Proof.
  intros Hq. unfold js_or. apply Qeq_bool_iff in Hq. rewrite Hq. reflexivity.
Qed.

Lemma js_gt0_positive (d : Q) : (0 < d)%Q → js_gt0 (Num d) = true.
Proof.
  intros Hd. unfold js_gt0. destruct (Qle_bool d 0) eqn:E; [|reflexivity].
  apply Qle_bool_iff in E. exfalso. exact (Qlt_not_le _ _ Hd E).
Qed.

Lemma js_gt0_spec (d : jsnum) :
  js_gt0 d = true ↔ ∃ q, d = Num q ∧ (0 < q)%Q.
Proof.
  split.
  - destruct d as [| |q]; try discriminate. cbn. intros H. exists q.
    split; [reflexivity|].
    destruct (Qle_bool q 0) eqn:E; [discriminate|].
    apply Qnot_le_lt. intros Hle. apply Qle_bool_iff in Hle. congruence.
  - intros (q & -> & Hq). apply js_gt0_positive, Hq.
Qed.

(** What [start] does on a numeric [when]: the three start calls, followed,
    exactly when [duration] is a positive number, by the calls of
    [stop(when + duration)]. *)
Lemma Sample_start_calls (v : nat) (w : Q) (duration : jsnum) (h : Host) :
  calls (Sample_start v (Num w) duration h)
  = calls h ++ [Event "start" v (Num w);
                Start (Of v KEnv) (Num w);
                Start (Of v KSource) (Num w)]
      ++ match duration with
         | Num d =>
             if Qle_bool d 0 then []
             else [Event "stop" v (Num (w + d));
                   Stop (Of v KEnv) (Num (js_or (Num (w + d)) (currentTime h)));
                   Stop (Of v KSource)
                     (Num (release_end h v
                             (js_or (Num (w + d)) (currentTime h))))]
         | Undefined | NaN => []
         end.
Proof.
  unfold Sample_start.
  destruct duration as [| |d]; cbn; [reflexivity|reflexivity|].
  destruct (Qle_bool d 0); cbn; [reflexivity|].
  rewrite <- app_assoc. reflexivity.
Qed.

(** On a numeric, non-negative [when] and a positive [duration] the implicit
    stop asks the release [duration] seconds after [when]. *)
Lemma Sample_start_implicit_stop (v : nat) (w d : Q) (h : Host) :
  (0 <= w)%Q → (0 < d)%Q →
  calls (Sample_start v (Num w) (Num d) h)
  = calls h ++ [Event "start" v (Num w);
                Start (Of v KEnv) (Num w);
                Start (Of v KSource) (Num w);
                Event "stop" v (Num (w + d));
                Stop (Of v KEnv) (Num (w + d));
                Stop (Of v KSource) (Num (release_end h v (w + d)))].
Proof.
  intros Hw Hd. rewrite Sample_start_calls.
  assert (Hle : Qle_bool d 0 = false).
  { destruct (Qle_bool d 0) eqn:E; [|reflexivity].
    apply Qle_bool_iff in E. exfalso. exact (Qlt_not_le _ _ Hd E). }
  rewrite Hle. rewrite js_or_number; [reflexivity|].
  intros H0. assert (0 < w + d)%Q.
  { apply Qlt_le_trans with (y := d); [exact Hd|].
    rewrite <- (Qplus_0_l d) at 1. apply Qplus_le_l. exact Hw. }
  rewrite H0 in H. exact (Qlt_irrefl _ H).
Qed.

(** C6, as the code has it: [stop(when)] emits a ['stop'] event carrying
    [when], asks the envelope to begin its release at [when] when [when] is
    a number other than zero and at the clock's current time when [when] is
    omitted, zero or [NaN], and schedules the hard stop of the source at
    exactly the release end the envelope returned for that request. *)
Theorem Sample_stop_release (v : nat) (when : jsnum) (h : Host) :
  ∃ at_ : Q,
    calls (Sample_stop v when h)
    = calls h ++ [Event "stop" v when;
                  Stop (Of v KEnv) (Num at_);
                  Stop (Of v KSource) (Num (release_end h v at_))] ∧
    (∀ q, when = Num q → ¬ (q == 0)%Q → at_ = q) ∧
    (when = Undefined ∨ when = NaN ∨ (∃ q, when = Num q ∧ (q == 0)%Q) →
     at_ = currentTime h).
Proof.
  exists (js_or when (currentTime h)). split; [apply Sample_stop_calls|]. split.
  - intros q -> Hq. apply js_or_number, Hq.
  - intros [-> | [-> | (q & -> & Hq)]]; try reflexivity.
    apply js_or_zero, Hq.
Qed.

Lemma Sample_stop_release_witness :
  ∃ at_ : Q,
    calls (Sample_stop 0 (Num 7) host_at_5)
    = [Event "stop" 0 (Num 7);
       Stop (Of 0 KEnv) (Num at_);
       Stop (Of 0 KSource) (Num (at_ + (3 # 10)))] ∧
    at_ = 7%Q.
Proof.
  destruct (Sample_stop_release 0 (Num 7) host_at_5) as (at_ & Hc & Hq & _).
  exists at_. split; [exact Hc|].
  apply (Hq 7%Q); [reflexivity|]. intros H. discriminate H.
Defined.

(** C6, as stated, fails on [stop(0)] while the clock reads 5: the envelope
    is asked to release at 5, not at 0. *)
Lemma Sample_stop_zero_counterexample :
  release_times (calls (Sample_stop 0 (Num 0) host_at_5)) = [(0%nat, Num 5)]
  ∧ release_times (calls (Sample_stop 0 (Num 0) host_at_5)) ≠ [(0%nat, Num 0)].
Proof. split; [reflexivity|]. intros H. discriminate H. Qed.

(** C7, the failing call: [start(undefined, d)] with a positive [d].  The
    sum [when + duration] is [NaN], [stop(NaN)] falls back to the clock, and
    the release is asked at the current time, that is at the start, not [d]
    seconds after it. *)
Theorem Sample_start_when_omitted (v : nat) (d : Q) (h : Host) :
  (0 < d)%Q →
  calls (Sample_start v Undefined (Num d) h)
  = calls h ++ [Event "start" v Undefined;
                Start (Of v KEnv) Undefined;
                Start (Of v KSource) Undefined;
                Event "stop" v NaN;
                Stop (Of v KEnv) (Num (currentTime h));
                Stop (Of v KSource) (Num (release_end h v (currentTime h)))].
Proof.
  intros Hd. unfold Sample_start. rewrite (js_gt0_positive d Hd).
  rewrite Sample_stop_calls. cbn. rewrite <- app_assoc. reflexivity.
Qed.

Lemma Sample_start_when_omitted_witness :
  (0 < 2)%Q ∧
  release_times (calls (Sample_start 0 Undefined (Num 2) host_at_5))
  = [(0%nat, Num 5)].
Proof.
  split; [reflexivity|].
  rewrite (Sample_start_when_omitted 0 2 host_at_5); reflexivity.
Defined.

(** ** Construction *)

Ltac run_constructor :=
  unfold Sample_new, adsr, bind, alloc, lift, call, ret, context_of, accessor;
  cbn.

(** With a destination and an envelope array that can be indexed, the
    constructor returns, whatever the buffer is. *)
Lemma Sample_new_returns (buffer : option nat) (d : dest)
    (f : string -> value) (h : Host) :
  f "adsr" ≠ VUndef → f "adsr" ≠ VNull →
  ∃ h', Sample_new buffer (Some d) (OptFunction f) h
        = (h', Return {| voice := allocated h; id := None; onended := Noop |})
        ∧ In (SetBuffer (Of (allocated h) KSource) buffer) (calls h')
        ∧ sources h' = <[allocated h := {| voice := allocated h; id := None;
                                           onended := Noop |}]> (sources h)
        ∧ currentTime h' = currentTime h
        ∧ release_end h' = release_end h
        ∧ allocated h' = S (allocated h).
Proof.
  intros H1 H2. run_constructor.
  destruct (f "adsr") eqn:E; try congruence; cbn;
    (eexists; split; [reflexivity|]; cbn; split; [|repeat split];
     rewrite !in_app_iff; cbn; tauto).
Qed.

(** The chain is wired once, in a fixed order, before anything is
    scheduled: amplitude to the destination, envelope to the amplitude gain,
    filter to the amplitude, source to the filter. *)
Example constructor_wiring :
  calls (fst (Sample_new (Some 0%nat) (Some (External 0))
                (OptFunction (from ∅ ∅ DEFAULTS)) host_at_5))
  = [Create (Of 0 KAmp);
     SetProp (Of 0 KAmp) "gain.value" (VNum 0);
     Connect (Of 0 KAmp) (External 0);
     Create (Of 0 KEnv);
     SetProp (Of 0 KEnv) "attack" (VNum (1 # 100));
     SetProp (Of 0 KEnv) "decay" (VNum (1 # 10));
     SetProp (Of 0 KEnv) "sustain" (VNum (8 # 10));
     SetProp (Of 0 KEnv) "release" (VNum (3 # 10));
     SetProp (Of 0 KEnv) "value.value" (VNum 1);
     Connect (Of 0 KEnv) (Gain (Of 0 KAmp));
     Create (Of 0 KFilter);
     SetProp (Of 0 KFilter) "type" (VStr "highpass");
     SetProp (Of 0 KFilter) "frequency.value" (VNum 0);
     Connect (Of 0 KFilter) (Node (Of 0 KAmp));
     Create (Of 0 KSource);
     SetBuffer (Of 0 KSource) (Some 0%nat);
     SetProp (Of 0 KSource) "loop" (VBool false);
     Connect (Of 0 KSource) (Node (Of 0 KFilter));
     SetRate (Of 0 KSource) (Rate (centsToRate (Q2R (0 * 100))));
     SetProp (Of 0 KSource) "loopStart" (VNum 0);
     SetProp (Of 0 KSource) "loopEnd" (VNum 0)].
Proof. vm_compute. reflexivity. Qed.

(** A missing [options] makes the accessor throw at its first use, after
    the amplitude node was created and connected. *)
Example constructor_without_options :
  snd (Sample_new (Some 0%nat) (Some (External 0)) OptMissing host_at_5)
  = Throw TypeError
  ∧ calls (fst (Sample_new (Some 0%nat) (Some (External 0)) OptMissing
                  host_at_5))
    = [Create (Of 0 KAmp);
       SetProp (Of 0 KAmp) "gain.value" (VNum 0);
       Connect (Of 0 KAmp) (External 0)].
Proof. split; reflexivity. Qed.

(** C8, as the code has it: constructing a [Sample] without a destination
    throws at once, before any call on the host, whatever the other
    arguments are.  The buffer is not checked: whether the constructor
    throws does not depend on the buffer, and with a destination and an
    accessor whose envelope array can be indexed it returns with the
    missing buffer assigned to the source as given. *)
Theorem Sample_new_validation :
  (∀ buffer options h,
     snd (Sample_new buffer None options h) = Throw TypeError ∧
     calls (fst (Sample_new buffer None options h)) = calls h) ∧
  (∀ buffer buffer' destination options h,
     throws (Sample_new buffer destination options h)
     = throws (Sample_new buffer' destination options h)) ∧
  (∀ d f h,
     f "adsr" ≠ VUndef → f "adsr" ≠ VNull →
     throws (Sample_new None (Some d) (OptFunction f) h) = false ∧
     In (SetBuffer (Of (allocated h) KSource) None)
        (calls (fst (Sample_new None (Some d) (OptFunction f) h)))).
Proof.
  split; [|split].
  - intros buffer options h. split; reflexivity.
  - intros buffer buffer' destination options h. unfold throws.
    run_constructor. destruct destination as [d|]; [|reflexivity].
    destruct options as [f|a|]; cbn; [| |reflexivity].
    + destruct (f "adsr"); vm_compute; reflexivity.
    + destruct (from a ∅ ∅ "adsr"); vm_compute; reflexivity.
  - intros d f h H1 H2.
    destruct (Sample_new_returns None d f h H1 H2) as (h' & E & Hin & _).
    unfold throws. rewrite E. split; [reflexivity|exact Hin].
Qed.

Lemma Sample_new_validation_witness :
  throws (Sample_new None (Some (External 0))
            (OptFunction (from ∅ ∅ DEFAULTS)) host_at_5) = false.
Proof.
  apply (proj2 (proj2 Sample_new_validation) (External 0)
           (from ∅ ∅ DEFAULTS) host_at_5); vm_compute; discriminate.
Defined.

(** C8, as stated, fails on a missing buffer: with a destination and the
    default options the constructor returns the new voice. *)
Lemma Sample_new_missing_buffer_counterexample :
  snd (Sample_new None (Some (External 0))
         (OptFunction (from ∅ ∅ DEFAULTS)) host_at_5)
  = Return {| voice := 0; id := None; onended := Noop |}
  ∧ throws (Sample_new None (Some (External 0))
              (OptFunction (from ∅ ∅ DEFAULTS)) host_at_5) ≠ true.
Proof. split; [vm_compute; reflexivity|vm_compute; discriminate]. Qed.

(** ** The registry *)

Lemma stopById_absent (i : Z) (h : Host) (t : gmap Z nat) :
  t !! i = None → stopById i (h, t) = ((h, t), None).
Proof. intros E. unfold stopById. cbn. rewrite E. reflexivity. Qed.

Lemma stopById_present (i : Z) (p : nat) (h : Host) (t : gmap Z nat) :
  t !! i = Some p →
  stopById i (h, t) = ((log (stopped_now h p) h, delete i t), Some i).
Proof. intros E. unfold stopById. cbn. rewrite E. reflexivity. Qed.

Lemma map_stopById_cons (i : Z) (l : list Z) (st : Host * gmap Z nat) :
  map_stopById (i :: l) st
  = (fst (map_stopById l (fst (stopById i st))),
     snd (stopById i st) :: snd (map_stopById l (fst (stopById i st)))).
Proof.
  cbn. destruct (stopById i st) as [st1 r]. cbn.
  destruct (map_stopById l st1) as [st2 rs]. reflexivity.
Qed.

Lemma map_stopById_spec (l : list Z) : ∀ (h : Host) (t : gmap Z nat),
  ∃ h' t' rs (vs : list nat),
    map_stopById l (h, t) = ((h', t'), rs) ∧
    same_but_calls h' h ∧
    calls h' = calls h ++ (vs ≫= stopped_now h) ∧
    length rs = length l ∧
    (∀ k, t' !! k = if decide (k ∈ l) then None else t !! k) ∧
    (∀ n i, l !! n = Some i → t !! i = None → rs !! n = Some None) ∧
    (∀ n i, rs !! n = Some (Some i) → l !! n = Some i ∧ is_Some (t !! i)) ∧
    Some <$> vs = (t !!.) <$> omap (λ r, r) rs.
Proof.
  induction l as [|i l IH]; intros h t.
  - exists h, t, [], []. cbn. repeat split; try done.
    by rewrite app_nil_r.
  - rewrite map_stopById_cons. destruct (t !! i) as [p|] eqn:E.
    + rewrite (stopById_present i p h t E). cbn [fst snd].
      destruct (IH (log (stopped_now h p) h) (delete i t))
        as (h' & t' & rs & vs & Hm & Hf & Hc & Hl & Hk & Ha & Hr & Hv).
      exists h', t', (Some i :: rs), (p :: vs). rewrite Hm. cbn [fst snd].
      split; [done|]. split; [exact Hf|].
      split. { rewrite Hc. cbn [calls log]. rewrite bind_cons, <- app_assoc. reflexivity. }
      split. { cbn. by rewrite Hl. }
      split.
      { intros k. rewrite Hk, lookup_delete.
        destruct (decide (k ∈ i :: l)) as [H|H]; rewrite elem_of_cons in H.
        - destruct (decide (k ∈ l)); [done|].
          destruct (decide (i = k)); [done|].
          exfalso. destruct H; [congruence|contradiction].
        - destruct (decide (k ∈ l)); [tauto|].
          destruct (decide (i = k)); [|done].
          exfalso. apply H. left. congruence. }
      split.
      { intros [|n] j Hn Hj; cbn in Hn.
        - congruence.
        - apply (Ha n j Hn). apply lookup_delete_None. by right. }
      split.
      { intros [|n] j Hn; cbn in Hn.
        - inversion Hn; subst j. split; [done|]. by rewrite E.
        - destruct (Hr n j Hn) as [H1 H2]. split; [done|].
          apply lookup_delete_is_Some in H2. tauto. }
      cbn. rewrite E. f_equal. rewrite Hv.
      apply list_fmap_ext. intros n j Hn.
      apply list_elem_of_lookup_2 in Hn. apply list_elem_of_omap in Hn.
      destruct Hn as (r & Hr1 & Hr2). cbn in Hr2. subst r.
      apply list_elem_of_lookup_1 in Hr1 as [m Hm'].
      destruct (Hr m j Hm') as [_ H2].
      apply lookup_delete_is_Some in H2. apply lookup_delete_ne. tauto.
    + rewrite (stopById_absent i h t E). cbn [fst snd].
      destruct (IH h t)
        as (h' & t' & rs & vs & Hm & Hf & Hc & Hl & Hk & Ha & Hr & Hv).
      exists h', t', (None :: rs), vs. rewrite Hm. cbn [fst snd].
      split; [done|]. split; [exact Hf|]. split; [exact Hc|].
      split. { cbn. by rewrite Hl. }
      split.
      { intros k. rewrite Hk.
        destruct (decide (k ∈ i :: l)) as [H|H]; rewrite elem_of_cons in H.
        - destruct (decide (k ∈ l)); [done|].
          destruct H as [->|H]; [done|tauto].
        - destruct (decide (k ∈ l)); [tauto|done]. }
      split.
      { intros [|n] j Hn Hj; cbn in Hn; [done|]. by apply (Ha n j). }
      split.
      { intros [|n] j Hn; cbn in Hn; [done|]. by apply Hr. }
      exact Hv.
Qed.

Lemma map_stopById_absent (l : list Z) (h : Host) (t : gmap Z nat) :
  (∀ i, i ∈ l → t !! i = None) →
  map_stopById l (h, t) = ((h, t), replicate (length l) None).
Proof.
  induction l as [|i l IH]; intros Hl; [reflexivity|].
  rewrite map_stopById_cons, stopById_absent by (apply Hl; left).
  cbn [fst snd]. rewrite IH by (intros j Hj; apply Hl; by right).
  reflexivity.
Qed.

Lemma map_stopById_registered (l : list Z) : ∀ (h : Host) (t : gmap Z nat),
  NoDup l → (∀ i, i ∈ l → is_Some (t !! i)) →
  snd (map_stopById l (h, t)) = Some <$> l.
Proof.
  induction l as [|i l IH]; intros h t Hn Hl; [reflexivity|].
  apply NoDup_cons in Hn as [Hi Hn].
  destruct (Hl i) as [p E]; [left|].
  rewrite map_stopById_cons, (stopById_present i p h t E). cbn [fst snd].
  rewrite IH; [reflexivity|exact Hn|].
  intros j Hj. apply lookup_delete_is_Some. split.
  - intros ->. contradiction.
  - apply Hl. by right.
Qed.

Lemma omap_Some (l : list Z) : omap (λ r : option Z, r) (Some <$> l) = l.
Proof. induction l as [|i l IH]; [reflexivity|]. cbn. by rewrite IH. Qed.

Lemma Object_keys_spec (t : gmap Z nat) :
  NoDup (Object_keys t) ∧
  (∀ i, i ∈ Object_keys t ↔ is_Some (t !! i)) ∧
  length (Object_keys t) = size t ∧
  Sorted Z.le (Object_keys t).
Proof.
  unfold Object_keys.
  pose proof (merge_sort_Permutation Z.le (elements (dom t))) as HP.
  repeat split.
  - rewrite HP. apply NoDup_elements.
  - rewrite HP, elem_of_elements, elem_of_dom. done.
  - rewrite HP, elem_of_elements, elem_of_dom. done.
  - rewrite HP. rewrite <- size_dom. reflexivity.
  - apply Sorted_merge_sort. intros x y. lia.
Qed.

Lemma with_state_same (p : Player) : with_state p (ac p, _playing p) = p.
Proof. destruct p. reflexivity. Qed.

Lemma release_times_stopped_now (h : Host) (vs : list nat) :
  release_times (vs ≫= stopped_now h)
  = (λ v, (v, Num (currentTime h))) <$> vs.
Proof.
  induction vs as [|v vs IH]; [reflexivity|].
  rewrite bind_cons. cbn. f_equal. exact IH.
Qed.

(** C2: for every player, [stop(when)] without ids returns the list of the
    registered ids (the keys of the registry, in key order), whose length is
    the number of voices registered before the call (so the empty list on
    an empty registry), stops the voice registered under each of them, and
    leaves the registry empty. *)
Theorem Player_stop_all (p : Player) (when : jsnum) :
  ∃ vs : list nat,
    snd (Player_stop when IdsMissing p)
    = Many (Some <$> Object_keys (_playing p)) ∧
    length (Some <$> Object_keys (_playing p)) = size (_playing p) ∧
    Object_keys (_playing p) ≡ₚ elements (dom (_playing p)) ∧
    _playing (fst (Player_stop when IdsMissing p)) = ∅ ∧
    Some <$> vs = (_playing p !!.) <$> Object_keys (_playing p) ∧
    calls (ac (fst (Player_stop when IdsMissing p)))
    = calls (ac p) ++ (vs ≫= stopped_now (ac p)).
Proof.
  destruct (Object_keys_spec (_playing p)) as (Hnd & Hin & Hlen & _).
  destruct (map_stopById_spec (Object_keys (_playing p)) (ac p) (_playing p))
    as (h' & t' & rs & vs & Hm & _ & Hc & _ & Hk & _ & _ & Hv).
  assert (Hrs : rs = Some <$> Object_keys (_playing p)).
  { pose proof (map_stopById_registered (Object_keys (_playing p)) (ac p)
                  (_playing p) Hnd (λ i, proj1 (Hin i))) as H.
    rewrite Hm in H. exact H. }
  exists vs. unfold Player_stop. cbn [falsy]. rewrite Hm. cbn.
  repeat split.
  - by rewrite Hrs.
  - by rewrite length_fmap.
  - apply merge_sort_Permutation.
  - apply map_eq. intros k. rewrite Hk, lookup_empty.
    destruct (decide (k ∈ Object_keys (_playing p))) as [|Hn]; [done|].
    apply eq_None_not_Some. intros H. apply Hn, Hin, H.
  - rewrite Hv, Hrs, omap_Some. reflexivity.
  - exact Hc.
Qed.

(** C4: [Player.stop] does not pass [when] on: the outcome is the same for
    every [when], each stopped voice receives [stop()] without argument,
    and its envelope is asked to release at the clock's current time. *)
Theorem Player_stop_ignores_when (p : Player) (when : jsnum) (ids : ids_arg) :
  (∀ when', Player_stop when' ids p = Player_stop when ids p) ∧
  ∃ vs : list nat,
    Some <$> vs
    = (_playing p !!.) <$> stopped_ids (snd (Player_stop when ids p)) ∧
    calls (ac (fst (Player_stop when ids p)))
    = calls (ac p) ++ (vs ≫= stopped_now (ac p)) ∧
    release_times (vs ≫= stopped_now (ac p))
    = (λ v, (v, Num (currentTime (ac p)))) <$> vs.
Proof.
  split; [reflexivity|].
  assert (Hlist : ∀ l,
    ∃ vs : list nat,
      Some <$> vs
      = (_playing p !!.)
          <$> omap (λ x, x) (snd (map_stopById l (ac p, _playing p))) ∧
      calls (fst (fst (map_stopById l (ac p, _playing p))))
      = calls (ac p) ++ (vs ≫= stopped_now (ac p))).
  { intros l.
    destruct (map_stopById_spec l (ac p) (_playing p))
      as (h' & t' & rs & vs & Hm & _ & Hc & _ & _ & _ & _ & Hv).
    exists vs. rewrite Hm. cbn. split; [exact Hv|exact Hc]. }
  assert (Hmany : ∀ l,
    ∃ vs : list nat,
      Some <$> vs
      = (_playing p !!.)
          <$> stopped_ids
                (snd (let '(st', rs) := map_stopById l (ac p, _playing p) in
                      (with_state p st', Many rs))) ∧
      calls (ac (fst (let '(st', rs) := map_stopById l (ac p, _playing p) in
                      (with_state p st', Many rs))))
      = calls (ac p) ++ (vs ≫= stopped_now (ac p)) ∧
      release_times (vs ≫= stopped_now (ac p))
      = (λ v, (v, Num (currentTime (ac p)))) <$> vs).
  { intros l. destruct (Hlist l) as (vs & Hv & Hc). exists vs.
    destruct (map_stopById l (ac p, _playing p)) as [st' rs]. cbn in *.
    split; [exact Hv|]. split; [exact Hc|apply release_times_stopped_now]. }
  unfold Player_stop. destruct ids as [|i|l]; cbn [falsy].
  - apply Hmany.
  - destruct (i =? 0)%Z; [apply Hmany|].
    destruct (_playing p !! i) as [v|] eqn:E.
    + exists [v]. rewrite (stopById_present i v _ _ E). cbn. rewrite E.
      split; [reflexivity|]. split; reflexivity.
    + exists []. rewrite (stopById_absent i _ _ E). cbn.
      split; [reflexivity|]. split; [by rewrite app_nil_r|reflexivity].
  - apply Hmany.
Qed.

(** C5, as the code has it: stopping a single id other than 0 that is not
    registered returns null and leaves the player as it was; in a sequence
    of ids every position whose id is not registered gets null, ids outside
    the sequence stay registered, and when none of the ids is registered the
    player is left as it was.  A single id 0 is falsy and is taken as no
    ids at all: every voice is stopped. *)
Theorem Player_stop_unknown (p : Player) (when : jsnum) :
  (∀ i, i ≠ 0 → _playing p !! i = None →
        Player_stop when (IdsOne i) p = (p, One None)) ∧
  (∀ l, (∀ i, i ∈ l → _playing p !! i = None) →
        Player_stop when (IdsArray l) p
        = (p, Many (replicate (length l) None))) ∧
  (∀ l n i, l !! n = Some i → _playing p !! i = None →
            ∃ rs, snd (Player_stop when (IdsArray l) p) = Many rs
                  ∧ length rs = length l
                  ∧ rs !! n = Some None) ∧
  (∀ l k, k ∉ l →
          _playing (fst (Player_stop when (IdsArray l) p)) !! k
          = _playing p !! k) ∧
  Player_stop when (IdsOne 0) p = Player_stop when IdsMissing p.
Proof.
  split; [|split; [|split; [|split]]].
  - intros i Hi E. unfold Player_stop. cbn [falsy].
    destruct (Z.eqb_spec i 0) as [|_]; [contradiction|].
    rewrite (stopById_absent i _ _ E). by rewrite with_state_same.
  - intros l Hl. unfold Player_stop. cbn [falsy].
    rewrite (map_stopById_absent l _ _ Hl). by rewrite with_state_same.
  - intros l n i Hn E. unfold Player_stop. cbn [falsy].
    destruct (map_stopById_spec l (ac p) (_playing p))
      as (h' & t' & rs & vs & Hm & _ & _ & Hlen & _ & Ha & _ & _).
    rewrite Hm. exists rs. cbn. split; [done|]. split; [done|].
    by apply (Ha n i).
  - intros l k Hk. unfold Player_stop. cbn [falsy].
    destruct (map_stopById_spec l (ac p) (_playing p))
      as (h' & t' & rs & vs & Hm & _ & _ & _ & Hlk & _ & _ & _).
    rewrite Hm. cbn. rewrite Hlk. by destruct (decide (k ∈ l)).
  - reflexivity.
Qed.

Lemma Player_stop_unknown_witness :
  Player_stop (Num 9) (IdsOne 9999) fresh_player = (fresh_player, One None)
  ∧ Player_stop (Num 9) (IdsArray [7; 8]) one_voice
    = (one_voice, Many [None; None]).
Proof.
  split.
  - apply (proj1 (Player_stop_unknown fresh_player (Num 9)) 9999);
      [discriminate|reflexivity].
  - apply (proj1 (proj2 (Player_stop_unknown one_voice (Num 9))) [7; 8]).
    intros i Hi. apply list_elem_of_In in Hi.
    destruct Hi as [<-|[<-|[]]]; vm_compute; reflexivity.
Defined.

(** C5, as stated, fails on the id 0: it is not registered, yet
    [stop(when, 0)] returns the list of the ids of all voices and empties
    the registry. *)
Lemma Player_stop_zero_counterexample :
  _playing one_voice !! 0 = None
  ∧ snd (Player_stop (Num 9) (IdsOne 0) one_voice) = Many [Some 1]
  ∧ _playing one_voice = {[ 1 := 0%nat ]}
  ∧ _playing (fst (Player_stop (Num 9) (IdsOne 0) one_voice)) = ∅
  ∧ Player_stop (Num 9) (IdsOne 0) one_voice ≠ (one_voice, One None).
Proof.
  repeat split; try (vm_compute; reflexivity).
  intros H. apply (f_equal snd) in H. vm_compute in H. discriminate H.
Qed.

(** ** Ids *)

Lemma Player_stop_nextId (when : jsnum) (ids : ids_arg) (p : Player) :
  nextId (fst (Player_stop when ids p)) = nextId p.
Proof.
  unfold Player_stop. destruct (falsy ids).
  - destruct (map_stopById _ _) as [st rs]. reflexivity.
  - destruct ids as [|i|l]; [reflexivity| |].
    + destruct (stopById _ _) as [st r]. reflexivity.
    + destruct (map_stopById _ _) as [st rs]. reflexivity.
Qed.


(** ** The scenarios of the specification *)

Example scenario_start_then_end :
  let '(p, rs) := run [OpStart (Some 0%nat) (Num 6) Undefined None None]
                    fresh_player in
  started_ids rs = [1]
  ∧ count (is_event "start" 0) (calls (ac p)) = 1%nat
  ∧ _playing p = {[ 1 := 0%nat ]}
  ∧ _playing (fst (step (OpEnded 0) p)) = ∅
  ∧ count (is_event "ended" 0) (calls (ac (fst (step (OpEnded 0) p)))) = 1%nat.
Proof. vm_compute. repeat split. Qed.

Example scenario_duration :
  release_times
    (calls (ac (fst (run [OpStart (Some 0%nat) (Num 6) (Num 2) None None]
                       fresh_player))))
  = [(0%nat, Num (6 + 2))].
Proof. vm_compute. reflexivity. Qed.

Example scenario_stop_all :
  let '(p, rs) := run (three_starts ++ [OpStop (Num 9) IdsMissing])
                    fresh_player in
  started_ids rs = [1; 2; 3]
  ∧ last rs = Some (Stopped (Many [Some 1; Some 2; Some 3]))
  ∧ _playing p = ∅.
Proof. vm_compute. repeat split. Qed.

Example scenario_stop_empty :
  snd (Player_stop (Num 9) IdsMissing fresh_player) = Many [].
Proof. vm_compute. reflexivity. Qed.

(** * Further properties of the code *)

(** ** The constructor *)

(** What every run of the constructor does to the host: it allocates one
    object, makes wiring calls only, and leaves the clock; the new voice is
    held by its source exactly when the constructor returns. *)
Lemma Sample_new_effect (buffer : option nat) (destination : option dest)
    (options : options_arg) (h : Host) :
  ∃ new,
    calls (fst (Sample_new buffer destination options h)) = calls h ++ new ∧
    forallb is_wiring new = true ∧
    currentTime (fst (Sample_new buffer destination options h))
    = currentTime h ∧
    release_end (fst (Sample_new buffer destination options h))
    = release_end h ∧
    allocated (fst (Sample_new buffer destination options h))
    = S (allocated h) ∧
    match snd (Sample_new buffer destination options h) with
    | Throw e =>
        sources (fst (Sample_new buffer destination options h)) = sources h
    | Return s =>
        s = {| voice := allocated h; id := None; onended := Noop |} ∧
        sources (fst (Sample_new buffer destination options h))
        = <[allocated h := s]> (sources h)
    end.
Proof.
  run_constructor.
  destruct destination as [d|];
    [|exists []; cbn; rewrite app_nil_r; repeat split].
  destruct options as [f|a|]; cbn.
  - destruct (f "adsr"); cbn;
      (eexists; split; [rewrite <- ?app_assoc; reflexivity|];
       cbn; repeat split).
  - destruct (from a ∅ ∅ "adsr"); cbn;
      (eexists; split; [rewrite <- ?app_assoc; reflexivity|];
       cbn; repeat split).
  - eexists; split; [reflexivity|]. cbn. repeat split.
Qed.

Lemma from_hash_only (a : gmap string value) (name : string) :
  from a ∅ ∅ name = get a name.
Proof.
  unfold from, get. destruct (a !! name); [reflexivity|].
  rewrite !lookup_empty. reflexivity.
Qed.

(** X1: the constructor throws exactly when the destination is missing, or
    [options] is neither a function nor a hash, or the envelope array its
    accessor resolves to is [undefined] or [null]; in particular a hash
    without an [adsr] entry makes it throw, and the buffer, the other
    options and the state of the host play no part. *)
Theorem Sample_new_throws_iff (buffer : option nat) (destination : option dest)
    (options : options_arg) (h : Host) :
  throws (Sample_new buffer destination options h)
  = match destination, resolved_adsr options with
    | Some _, Some a => nullish a
    | _, _ => true
    end.
Proof.
  unfold throws. run_constructor.
  destruct destination as [d|]; [|reflexivity].
  destruct options as [f|a|]; cbn; [| |reflexivity].
  - destruct (f "adsr"); reflexivity.
  - rewrite from_hash_only. destruct (get a "adsr"); reflexivity.
Qed.

(** X2: the constructor only builds: whatever its arguments, and whether it
    returns or throws, every call it makes creates a node, sets a property
    or connects; it starts and stops nothing, emits no event, and leaves the
    clock as it is. *)
Theorem Sample_new_schedules_nothing (buffer : option nat)
    (destination : option dest) (options : options_arg) (h : Host) :
  ∃ new,
    calls (fst (Sample_new buffer destination options h)) = calls h ++ new ∧
    forallb is_wiring new = true ∧
    release_times new = [] ∧
    count is_cleanup new = 0%nat ∧
    currentTime (fst (Sample_new buffer destination options h))
    = currentTime h.
Proof.
  destruct (Sample_new_effect buffer destination options h)
    as (new & Hc & Hw & Ht & _).
  exists new. split; [exact Hc|]. split; [exact Hw|].
  split; [|split; [|exact Ht]].
  - clear Hc. induction new as [|a new IH]; [reflexivity|].
    cbn in Hw. apply andb_prop in Hw as [Ha Hw].
    destruct a; try discriminate Ha; cbn; apply IH, Hw.
  - clear Hc. unfold count. induction new as [|a new IH]; [reflexivity|].
    cbn in Hw. apply andb_prop in Hw as [Ha Hw].
    destruct a; try discriminate Ha; cbn; apply IH, Hw.
Qed.

Ltac decide_nodes :=
  repeat match goal with
    | |- context [bool_decide (Of ?v ?a = Of ?w ?b)] =>
        first [ rewrite (bool_decide_eq_true_2 (Of v a = Of w b))
                  by reflexivity
              | rewrite (bool_decide_eq_false_2 (Of v a = Of w b))
                  by congruence ]
    end.

(** The calls of a constructor that returns. *)
Lemma Sample_new_built (buffer : option nat) (d : dest)
    (options : options_arg) (h : Host) :
  throws (Sample_new buffer (Some d) options h) = false →
  ∃ x0 x1 x2 x3,
    index (resolver options "adsr") 0 = Return x0 ∧
    index (resolver options "adsr") 1 = Return x1 ∧
    index (resolver options "adsr") 2 = Return x2 ∧
    index (resolver options "adsr") 3 = Return x3 ∧
    calls (fst (Sample_new buffer (Some d) options h))
    = calls h ++ built (allocated h) buffer d (resolver options) x0 x1 x2 x3.
Proof.
  unfold throws, built, resolver. run_constructor.
  destruct options as [f|a|]; cbn; [| |discriminate].
  - destruct (f "adsr"); cbn; try discriminate; intros _;
      (do 4 eexists; repeat split; rewrite <- ?app_assoc; reflexivity).
  - destruct (from a ∅ ∅ "adsr"); cbn; try discriminate; intros _;
      (do 4 eexists; repeat split; rewrite <- ?app_assoc; reflexivity).
Qed.

(** X3: when the constructor returns, the chain of the new voice has been
    built once and in a fixed order: the amplitude, the envelope, the filter
    and the source are created in that order, once each; the amplitude goes
    to the destination, the envelope to the amplitude's gain, the filter to
    the amplitude and the source to the filter; and the only property set on
    the amplitude is a gain of 0, so the voice is silent until started. *)
Theorem Sample_new_wiring (buffer : option nat) (d : dest)
    (options : options_arg) (h : Host) :
  throws (Sample_new buffer (Some d) options h) = false →
  ∃ new,
    calls (fst (Sample_new buffer (Some d) options h)) = calls h ++ new ∧
    creations new
    = [Of (allocated h) KAmp; Of (allocated h) KEnv;
       Of (allocated h) KFilter; Of (allocated h) KSource] ∧
    connections new
    = [(Of (allocated h) KAmp, d);
       (Of (allocated h) KEnv, Gain (Of (allocated h) KAmp));
       (Of (allocated h) KFilter, Node (Of (allocated h) KAmp));
       (Of (allocated h) KSource, Node (Of (allocated h) KFilter))] ∧
    settings (Of (allocated h) KAmp) new = [("gain.value", VNum 0)].
Proof.
  intros E.
  destruct (Sample_new_built buffer d options h E)
    as (x0 & x1 & x2 & x3 & _ & _ & _ & _ & Hc).
  eexists. split; [exact Hc|]. split; [reflexivity|]. split; [reflexivity|].
  unfold built. cbn. decide_nodes. reflexivity.
Qed.

Lemma Sample_new_wiring_witness :
  ∃ new,
    calls (fst (Sample_new None (Some (External 0))
                  (OptHash {[ "adsr" := VArr [VNum 1] ]}) host_at_5))
    = new ∧
    connections new
    = [(Of 0 KAmp, External 0);
       (Of 0 KEnv, Gain (Of 0 KAmp));
       (Of 0 KFilter, Node (Of 0 KAmp));
       (Of 0 KSource, Node (Of 0 KFilter))].
Proof.
  destruct (Sample_new_wiring None (External 0)
              (OptHash {[ "adsr" := VArr [VNum 1] ]}) host_at_5)
    as (new & Hc & _ & Hn & _); [vm_compute; reflexivity|].
  exists new. split; [exact Hc|exact Hn].
Defined.

(** ** The envelope adapter *)

(** X4: on an array, [adsr] creates the envelope and then sets [attack],
    [decay], [sustain] and [release], in that order, to the elements 0 to 3;
    an element beyond the end of the array is [undefined], further elements
    are ignored, and nothing is validated. *)
Theorem adsr_sets_in_order (env : node) (l : list value) (h : Host) :
  snd (adsr env (VArr l) h) = Return tt ∧
  calls (fst (adsr env (VArr l) h))
  = calls h ++ [Create env;
                SetProp env "attack" (nth 0 l VUndef);
                SetProp env "decay" (nth 1 l VUndef);
                SetProp env "sustain" (nth 2 l VUndef);
                SetProp env "release" (nth 3 l VUndef)].
Proof.
  unfold adsr, bind, call, lift, ret. cbn.
  split; [reflexivity|]. rewrite <- !app_assoc. reflexivity.
Qed.

(** X5: on [undefined] or [null], [adsr] throws a [TypeError] at the first
    element, after the envelope was created and before any of its
    parameters was set; on every other value it returns. *)
Theorem adsr_throws_iff (env : node) (a : value) (h : Host) :
  (nullish a = true →
   snd (adsr env a h) = Throw TypeError ∧
   calls (fst (adsr env a h)) = calls h ++ [Create env]) ∧
  (nullish a = false → snd (adsr env a h) = Return tt).
Proof.
  unfold adsr, bind, call, lift, ret.
  destruct a; cbn; split; intros H; try discriminate H; try reflexivity;
    split; reflexivity.
Qed.

Lemma adsr_throws_iff_witness :
  snd (adsr (Of 0 KEnv) VUndef host_at_5) = Throw TypeError
  ∧ calls (fst (adsr (Of 0 KEnv) VUndef host_at_5)) = [Create (Of 0 KEnv)]
  ∧ snd (adsr (Of 0 KEnv) (VNum 3) host_at_5) = Return tt.
Proof.
  pose proof (adsr_throws_iff (Of 0 KEnv) VUndef host_at_5) as [H1 _].
  pose proof (adsr_throws_iff (Of 0 KEnv) (VNum 3) host_at_5) as [_ H2].
  destruct (H1 eq_refl) as [Ha Hb].
  split; [exact Ha|]. split; [exact Hb|]. exact (H2 eq_refl).
Defined.

(** ** Starting through the player *)

Lemma wiring_silent (new : list action) :
  forallb is_wiring new = true →
  events new = [] ∧ start_times new = [] ∧ release_times new = [] ∧
  count is_cleanup new = 0%nat.
Proof.
  unfold count. induction new as [|a new IH]; [done|].
  cbn. intros Hw. apply andb_prop in Hw as [Ha Hw].
  destruct a; try discriminate Ha; cbn; apply IH, Hw.
Qed.

(** The calls of [s.start], spelled out. *)
Lemma scheduling_eq (h : Host) (v : nat) (when duration : jsnum) :
  scheduling h v when duration
  = [Event "start" v when; Start (Of v KEnv) when; Start (Of v KSource) when]
    ++ (if js_gt0 duration then
          [Event "stop" v (js_add when duration);
           Stop (Of v KEnv)
             (Num (js_or (js_add when duration) (currentTime h)));
           Stop (Of v KSource)
             (Num (release_end h v
                     (js_or (js_add when duration) (currentTime h))))]
        else []).
Proof.
  unfold scheduling, made, Sample_start. destruct (js_gt0 duration); cbn.
  - rewrite <- app_assoc. apply drop_app_length.
  - apply drop_app_length.
Qed.

Lemma scheduling_frame (h h' : Host) (v : nat) (when duration : jsnum) :
  currentTime h' = currentTime h → release_end h' = release_end h →
  scheduling h' v when duration = scheduling h v when duration.
Proof. intros Ht Hr. rewrite !scheduling_eq, Ht, Hr. reflexivity. Qed.

Lemma Sample_start_made (v : nat) (when duration : jsnum) (h : Host) :
  calls (Sample_start v when duration h)
  = calls h ++ scheduling h v when duration ∧
  currentTime (Sample_start v when duration h) = currentTime h ∧
  release_end (Sample_start v when duration h) = release_end h ∧
  allocated (Sample_start v when duration h) = allocated h ∧
  sources (Sample_start v when duration h) = sources h ∧
  refuses (Sample_start v when duration h) = refuses h.
Proof.
  rewrite scheduling_eq. unfold Sample_start.
  destruct (js_gt0 duration); cbn; repeat split.
  by rewrite <- app_assoc.
Qed.


(** The constructor, called with an accessor function, throws exactly on an
    envelope array that cannot be indexed, and then with a [TypeError]. *)
Lemma Sample_new_function (buffer : option nat) (d : dest)
    (f : string -> value) (h : Host) :
  snd (Sample_new buffer (Some d) (OptFunction f) h)
  = (if nullish (f "adsr") then Throw TypeError
     else Return {| voice := allocated h; id := None; onended := Noop |}) ∧
  refuses (fst (Sample_new buffer (Some d) (OptFunction f) h)) = refuses h.
Proof.
  run_constructor. destruct (f "adsr"); cbn; split; reflexivity.
Qed.

(** What [Player.start] does, by cases: the constructor throws and nothing
    is registered; or the voice is registered and [s.start] runs up to the
    first call that throws, if there is one. *)
Lemma Player_start_cases (buffer : option nat) (when duration : jsnum)
    (opts : option (gmap string value)) (destination : option dest)
    (p : Player) :
  ∃ wiring,
    forallb is_wiring wiring = true ∧
    if nullish (from (default ∅ opts) (options p) DEFAULTS "adsr") then
      snd (Player_start buffer when duration opts destination p)
      = Throw TypeError ∧
      nextId (fst (Player_start buffer when duration opts destination p))
      = nextId p ∧
      _playing (fst (Player_start buffer when duration opts destination p))
      = _playing p ∧
      sources (ac (fst (Player_start buffer when duration opts destination p)))
      = sources (ac p) ∧
      calls (ac (fst (Player_start buffer when duration opts destination p)))
      = calls (ac p) ++ wiring
    else
      nextId (fst (Player_start buffer when duration opts destination p))
      = nextId p + 1 ∧
      _playing (fst (Player_start buffer when duration opts destination p))
      = <[nextId p := allocated (ac p)]> (_playing p) ∧
      sources (ac (fst (Player_start buffer when duration opts destination p)))
      = <[allocated (ac p) := {| voice := allocated (ac p);
                                 id := Some (nextId p);
                                 onended := DeleteTracked |}]>
          (sources (ac p)) ∧
      match refused (refuses (ac p))
              (scheduling (ac p) (allocated (ac p))
                 (Num (js_or when (currentTime (ac p)))) duration) with
      | None =>
          snd (Player_start buffer when duration opts destination p)
          = Return {| voice := allocated (ac p); id := Some (nextId p);
                      onended := DeleteTracked |} ∧
          calls (ac (fst (Player_start buffer when duration opts
                            destination p)))
          = calls (ac p) ++ wiring
            ++ scheduling (ac p) (allocated (ac p))
                 (Num (js_or when (currentTime (ac p)))) duration
      | Some (made_, e) =>
          snd (Player_start buffer when duration opts destination p)
          = Throw e ∧
          calls (ac (fst (Player_start buffer when duration opts
                            destination p)))
          = calls (ac p) ++ wiring ++ made_
      end.
Proof.
  unfold Player_start.
  destruct (Sample_new_effect buffer
              (Some (default (Node Output) destination))
              (OptFunction (from (default ∅ opts) (options p) DEFAULTS))
              (ac p)) as (wiring & Hc & Hw & Ht & Hr & Ha & Hs).
  destruct (Sample_new_function buffer (default (Node Output) destination)
              (from (default ∅ opts) (options p) DEFAULTS) (ac p))
    as (Ho & Hf).
  exists wiring. split; [exact Hw|].
  destruct (Sample_new _ _ _ _) as [h [s0|e]]; cbn [fst snd] in *.
  - destruct (nullish _); [discriminate Ho|]. destruct Hs as [-> Hs].
    cbn [voice]. unfold attempt. cbn [refuses store].
    fold (scheduling
            (store {| voice := allocated (ac p); id := Some (nextId p);
                      onended := DeleteTracked |} h)
            (allocated (ac p)) (Num (js_or when (currentTime (ac p))))
            duration).
    rewrite (scheduling_frame (ac p)) by (cbn; congruence). rewrite Hf.
    destruct (refused _ _) as [[made_ e]|]; cbn [fst snd].
    + cbn. rewrite Hs, insert_insert_eq, Hc, <- app_assoc. done.
    + destruct (Sample_start_made (allocated (ac p))
                  (Num (js_or when (currentTime (ac p)))) duration
                  (store {| voice := allocated (ac p); id := Some (nextId p);
                            onended := DeleteTracked |} h))
        as (H1 & _ & _ & _ & H5 & _).
      cbn [ac nextId _playing]. rewrite H1, H5.
      rewrite (scheduling_frame (ac p)) by (cbn; congruence).
      cbn. rewrite Hs, insert_insert_eq, Hc, <- app_assoc. done.
  - destruct (nullish _); [|discriminate Ho]. inversion Ho. cbn. done.
Qed.

(** What [Player.start] does to the player, by outcome. *)
Lemma Player_start_effect (buffer : option nat) (when duration : jsnum)
    (opts : option (gmap string value)) (destination : option dest)
    (p : Player) :
  options (fst (Player_start buffer when duration opts destination p))
  = options p ∧
  currentTime (ac (fst (Player_start buffer when duration opts destination p)))
  = currentTime (ac p) ∧
  release_end (ac (fst (Player_start buffer when duration opts destination p)))
  = release_end (ac p) ∧
  allocated (ac (fst (Player_start buffer when duration opts destination p)))
  = S (allocated (ac p)) ∧
  match snd (Player_start buffer when duration opts destination p) with
  | Throw e =>
      (nextId (fst (Player_start buffer when duration opts destination p))
       = nextId p ∧
       _playing (fst (Player_start buffer when duration opts destination p))
       = _playing p ∧
       sources (ac (fst (Player_start buffer when duration opts
                           destination p)))
       = sources (ac p)) ∨
      (nextId (fst (Player_start buffer when duration opts destination p))
       = nextId p + 1 ∧
       _playing (fst (Player_start buffer when duration opts destination p))
       = <[nextId p := allocated (ac p)]> (_playing p) ∧
       sources (ac (fst (Player_start buffer when duration opts
                           destination p)))
       = <[allocated (ac p) := {| voice := allocated (ac p);
                                  id := Some (nextId p);
                                  onended := DeleteTracked |}]>
           (sources (ac p)))
  | Return s =>
      s = {| voice := allocated (ac p); id := Some (nextId p);
             onended := DeleteTracked |} ∧
      nextId (fst (Player_start buffer when duration opts destination p))
      = nextId p + 1 ∧
      _playing (fst (Player_start buffer when duration opts destination p))
      = <[nextId p := allocated (ac p)]> (_playing p) ∧
      sources (ac (fst (Player_start buffer when duration opts destination p)))
      = <[allocated (ac p) := s]> (sources (ac p))
  end.
Proof.
  split; [apply Player_start_options|].
  assert (Hframe :
    currentTime (ac (fst (Player_start buffer when duration opts
                            destination p))) = currentTime (ac p) ∧
    release_end (ac (fst (Player_start buffer when duration opts
                            destination p))) = release_end (ac p) ∧
    allocated (ac (fst (Player_start buffer when duration opts
                          destination p))) = S (allocated (ac p))).
  { unfold Player_start.
    destruct (Sample_new_effect buffer
                (Some (default (Node Output) destination))
                (OptFunction (from (default ∅ opts) (options p) DEFAULTS))
                (ac p)) as (wiring & _ & _ & Ht & Hr & Ha & _).
    destruct (Sample_new _ _ _ _) as [h [s0|e]]; cbn [fst snd ac] in *;
      [|done].
    unfold attempt. destruct (refused _ _) as [[made_ e]|]; cbn [fst snd ac].
    - cbn. done.
    - unfold Sample_start. destruct (js_gt0 duration); cbn; done. }
  destruct Hframe as (H1 & H2 & H3).
  split; [exact H1|]. split; [exact H2|]. split; [exact H3|].
  destruct (Player_start_cases buffer when duration opts destination p)
    as (wiring & _ & Hc).
  destruct (nullish _).
  - destruct Hc as (-> & Hn & Hp & Hs & _). left. done.
  - destruct Hc as (Hn & Hp & Hs & Hc).
    destruct (refused _ _) as [[made_ e]|].
    + destruct Hc as (-> & _). right. done.
    + destruct Hc as (-> & _). done.
Qed.

(** The calls of [Player.start]: the wiring of the constructor, then, when
    the call returned, the calls of [s.start(when, duration)] with [when]
    defaulted to the clock; when it threw, the calls made up to the throw. *)
Lemma Player_start_calls (buffer : option nat) (when duration : jsnum)
    (opts : option (gmap string value)) (destination : option dest)
    (p : Player) :
  ∃ wiring,
    forallb is_wiring wiring = true ∧
    match snd (Player_start buffer when duration opts destination p) with
    | Throw _ =>
        ∃ made_,
          calls (ac (fst (Player_start buffer when duration opts
                            destination p)))
          = calls (ac p) ++ wiring ++ made_
    | Return _ =>
        calls (ac (fst (Player_start buffer when duration opts destination p)))
        = calls (ac p) ++ wiring
          ++ [Event "start" (allocated (ac p))
                (Num (js_or when (currentTime (ac p))));
              Start (Of (allocated (ac p)) KEnv)
                (Num (js_or when (currentTime (ac p))));
              Start (Of (allocated (ac p)) KSource)
                (Num (js_or when (currentTime (ac p))))]
          ++ (if js_gt0 duration then
                [Event "stop" (allocated (ac p))
                   (js_add (Num (js_or when (currentTime (ac p)))) duration);
                 Stop (Of (allocated (ac p)) KEnv)
                   (Num (js_or (js_add (Num (js_or when (currentTime (ac p))))
                                  duration)
                           (currentTime (ac p))));
                 Stop (Of (allocated (ac p)) KSource)
                   (Num (release_end (ac p) (allocated (ac p))
                           (js_or (js_add (Num (js_or when
                                                  (currentTime (ac p))))
                                     duration)
                              (currentTime (ac p)))))]
              else [])
    end.
Proof.
  destruct (Player_start_cases buffer when duration opts destination p)
    as (wiring & Hw & Hc).
  exists wiring. split; [exact Hw|].
  rewrite scheduling_eq in Hc.
  destruct (nullish _).
  - destruct Hc as (-> & _ & _ & _ & Hc). exists []. by rewrite app_nil_r.
  - destruct Hc as (_ & _ & _ & Hc).
    destruct (refused _ _) as [[made_ e]|].
    + destruct Hc as (-> & Hc). by exists made_.
    + destruct Hc as (-> & Hc). exact Hc.
Qed.

(** A [start] that returned: the constructor returned the new voice and the
    host is the one [s.start] leaves. *)
Lemma Player_start_returned (buffer : option nat) (when duration : jsnum)
    (opts : option (gmap string value)) (destination : option dest)
    (p : Player) (s : Sample) :
  snd (Player_start buffer when duration opts destination p) = Return s →
  s = {| voice := allocated (ac p); id := Some (nextId p);
         onended := DeleteTracked |} ∧
  ∃ h,
    Sample_new buffer (Some (default (Node Output) destination))
      (OptFunction (from (default ∅ opts) (options p) DEFAULTS)) (ac p)
    = (h, Return {| voice := allocated (ac p); id := None;
                    onended := Noop |}) ∧
    ac (fst (Player_start buffer when duration opts destination p))
    = Sample_start (allocated (ac p))
        (Num (js_or when (currentTime (ac p)))) duration (store s h).
Proof.
  unfold Player_start.
  destruct (Sample_new_effect buffer
              (Some (default (Node Output) destination))
              (OptFunction (from (default ∅ opts) (options p) DEFAULTS))
              (ac p)) as (wiring & _ & _ & _ & _ & _ & Hs).
  destruct (Sample_new _ _ _ _) as [h [s0|e]]; cbn [fst snd] in *;
    [|discriminate].
  destruct Hs as [-> _]. cbn [voice]. unfold attempt.
  destruct (refused _ _) as [[made_ e]|]; cbn [fst snd]; [discriminate|].
  intros E. inversion E. split; [reflexivity|]. exists h. done.
Qed.

Lemma refused_none (r : action → option error) (l : list action) :
  (∀ a, r a = None) → refused r l = None.
Proof.
  intros Hr. induction l as [|a l IH]; [reflexivity|].
  cbn. by rewrite Hr, IH.
Qed.



(** X7: a [start] that returns registers the new voice under the id it
    returns: that id is the counter's value before the call, the counter
    moves by one, looking the id up yields the new voice, every other id is
    registered as before, and the voice awaits its end notification with
    the callback that removes its id. *)
Theorem Player_start_registers (buffer : option nat) (when duration : jsnum)
    (opts : option (gmap string value)) (destination : option dest)
    (p : Player) (s : Sample) :
  snd (Player_start buffer when duration opts destination p) = Return s →
  id s = Some (nextId p) ∧
  onended s = DeleteTracked ∧
  nextId (fst (Player_start buffer when duration opts destination p))
  = nextId p + 1 ∧
  _playing (fst (Player_start buffer when duration opts destination p))
    !! nextId p = Some (voice s) ∧
  (∀ k, k ≠ nextId p →
        _playing (fst (Player_start buffer when duration opts destination p))
          !! k = _playing p !! k) ∧
  sources (ac (fst (Player_start buffer when duration opts destination p)))
    !! voice s = Some s.
Proof.
  intros E.
  pose proof (Player_start_effect buffer when duration opts destination p)
    as (_ & _ & _ & _ & Hm).
  rewrite E in Hm. destruct Hm as (-> & Hn & Hp & Hs). cbn.
  split; [done|]. split; [done|]. split; [exact Hn|].
  rewrite Hp, Hs. split; [apply lookup_insert_eq|].
  split; [|apply lookup_insert_eq].
  intros k Hk. apply lookup_insert_ne. congruence.
Qed.

Lemma Player_start_registers_witness :
  _playing (fst (Player_start (Some 0%nat) (Num 6) Undefined None None
                   one_voice)) !! 2 = Some 1%nat.
Proof.
  destruct (Player_start_registers (Some 0%nat) (Num 6) Undefined None None
              one_voice
              {| voice := 1; id := Some 2; onended := DeleteTracked |})
    as (_ & _ & _ & H & _); [vm_compute; reflexivity|].
  exact H.
Defined.

Lemma js_or_nonneg (when : jsnum) (now : Q) :
  (0 <= now)%Q → (∀ w, when = Num w → (0 <= w)%Q) →
  (0 <= js_or when now)%Q.
Proof.
  intros Hn Hw. destruct when as [| |w]; cbn; try exact Hn.
  destruct (Qeq_bool w 0); [exact Hn|]. apply Hw. reflexivity.
Qed.

(** X8: through the player a voice is always started at a numeric time: the
    ['start'] event, the envelope attack and the source playback all carry
    [when], or the clock's current time when [when] is omitted, zero or
    [NaN]; they are the only starts the call makes and the event is the
    first one it emits. *)
Theorem Player_start_when_default (buffer : option nat)
    (when duration : jsnum) (opts : option (gmap string value))
    (destination : option dest) (p : Player) (s : Sample) :
  snd (Player_start buffer when duration opts destination p) = Return s →
  ∃ new,
    calls (ac (fst (Player_start buffer when duration opts destination p)))
    = calls (ac p) ++ new ∧
    start_times new
    = [(Of (voice s) KEnv, Num (js_or when (currentTime (ac p))));
       (Of (voice s) KSource, Num (js_or when (currentTime (ac p))))] ∧
    head (events new)
    = Some ("start", voice s, Num (js_or when (currentTime (ac p)))) ∧
    (when = Undefined ∨ when = NaN ∨ when = Num 0 →
     js_or when (currentTime (ac p)) = currentTime (ac p)).
Proof.
  intros E.
  pose proof (Player_start_effect buffer when duration opts destination p)
    as (_ & _ & _ & _ & Hm).
  destruct (Player_start_calls buffer when duration opts destination p)
    as (wiring & Hw & Hc).
  rewrite E in Hm, Hc. destruct Hm as (-> & _). cbn [voice].
  destruct (wiring_silent wiring Hw) as (He & Hs & _).
  eexists. split; [exact Hc|].
  unfold start_times, events in *. rewrite !omap_app, He, Hs.
  split; [|split].
  - destruct (js_gt0 duration); reflexivity.
  - reflexivity.
  - intros [-> | [-> | ->]]; reflexivity.
Qed.

Lemma Player_start_when_default_witness :
  ∃ new,
    calls (ac (fst (Player_start (Some 0%nat) Undefined Undefined None None
                      one_voice)))
    = calls (ac one_voice) ++ new ∧
    start_times new = [(Of 1 KEnv, Num 5); (Of 1 KSource, Num 5)].
Proof.
  destruct (Player_start_when_default (Some 0%nat) Undefined Undefined None
              None one_voice
              {| voice := 1; id := Some 2; onended := DeleteTracked |})
    as (new & Hc & Hs & _); [vm_compute; reflexivity|].
  exists new. split; [exact Hc|exact Hs].
Defined.

(** X9: through the player the implicit stop is always [duration] seconds
    after the effective start: on a clock that is not negative, with [when]
    omitted or not negative and a positive [duration], the one release the
    call asks for is at the start time plus [duration], and the source's
    hard stop is at the release end the envelope returns for it. *)
Theorem Player_start_implicit_stop (buffer : option nat) (when : jsnum)
    (d : Q) (opts : option (gmap string value)) (destination : option dest)
    (p : Player) (s : Sample) :
  snd (Player_start buffer when (Num d) opts destination p) = Return s →
  (0 <= currentTime (ac p))%Q →
  (∀ w, when = Num w → (0 <= w)%Q) →
  (0 < d)%Q →
  ∃ new,
    calls (ac (fst (Player_start buffer when (Num d) opts destination p)))
    = calls (ac p) ++ new ∧
    release_times new
    = [(voice s, Num (js_or when (currentTime (ac p)) + d))] ∧
    In (Stop (Of (voice s) KSource)
          (Num (release_end (ac p) (voice s)
                  (js_or when (currentTime (ac p)) + d)))) new.
Proof.
  intros E Hn Hw Hd.
  pose proof (Player_start_effect buffer when (Num d) opts destination p)
    as (_ & _ & _ & _ & Hm).
  destruct (Player_start_calls buffer when (Num d) opts destination p)
    as (wiring & Hwi & Hc).
  rewrite E in Hm, Hc. destruct Hm as (-> & _). cbn [voice].
  destruct (wiring_silent wiring Hwi) as (_ & _ & Hr & _).
  rewrite (js_gt0_positive d Hd) in Hc. cbn [js_add] in Hc.
  assert (Ht : js_or (Num (js_or when (currentTime (ac p)) + d))
                 (currentTime (ac p))
               = (js_or when (currentTime (ac p)) + d)%Q).
  { apply js_or_number. intros H0.
    pose proof (js_or_nonneg when (currentTime (ac p)) Hn Hw) as H1.
    assert (H2 : (0 < js_or when (currentTime (ac p)) + d)%Q).
    { apply Qlt_le_trans with (y := d); [exact Hd|].
      rewrite <- (Qplus_0_l d) at 1. apply Qplus_le_l. exact H1. }
    rewrite H0 in H2. exact (Qlt_irrefl _ H2). }
  rewrite Ht in Hc.
  eexists. split; [exact Hc|]. split.
  - unfold release_times in *. rewrite !omap_app, Hr. reflexivity.
  - rewrite !in_app_iff. right. right. cbn. tauto.
Qed.

Lemma Player_start_implicit_stop_witness :
  ∃ new,
    calls (ac (fst (Player_start (Some 0%nat) Undefined (Num 2) None None
                      one_voice)))
    = calls (ac one_voice) ++ new ∧
    release_times new = [(1%nat, Num (5 + 2))].
Proof.
  destruct (Player_start_implicit_stop (Some 0%nat) Undefined 2 None None
              one_voice
              {| voice := 1; id := Some 2; onended := DeleteTracked |})
    as (new & Hc & Hr & _).
  - vm_compute. reflexivity.
  - vm_compute. discriminate.
  - intros w H. discriminate H.
  - reflexivity.
  - exists new. split; [exact Hc|exact Hr].
Defined.

Lemma settings_scheduling (n : node) (v : nat) (when duration : jsnum)
    (h : Host) :
  ∃ sched,
    calls (Sample_start v when duration h) = calls h ++ sched ∧
    settings n sched = [] ∧
    (∀ m b, ¬ In (SetBuffer m b) sched) ∧
    (∀ m r, ¬ In (SetRate m r) sched).
Proof.
  unfold Sample_start. destruct (js_gt0 duration); cbn.
  - eexists. split; [rewrite <- app_assoc; reflexivity|].
    split; [reflexivity|]. split; intros m b H; cbn in H;
      repeat destruct H as [H|H]; try discriminate H; exact H.
  - eexists. split; [reflexivity|].
    split; [reflexivity|]. split; intros m b H; cbn in H;
      repeat destruct H as [H|H]; try discriminate H; exact H.
Qed.

(** X10: what [Player.start] sets on the nodes of a new voice is the
    three-tier resolution of each option: the envelope gets the first four
    elements of [adsr] and [gain] as its level, the filter gets [filter] and
    [freq], the source gets [loop], [loopStart] and [loopEnd], the buffer as
    given and the rate of [pitch]; each is looked up in the call-time hash
    first, then in the player's defaults, then in [DEFAULTS]. *)
Theorem Player_start_settings (buffer : option nat) (when duration : jsnum)
    (opts : option (gmap string value)) (destination : option dest)
    (p : Player) (s : Sample) :
  snd (Player_start buffer when duration opts destination p) = Return s →
  ∃ new attack decay sustain release,
    calls (ac (fst (Player_start buffer when duration opts destination p)))
    = calls (ac p) ++ new ∧
    settings (Of (voice s) KEnv) new
    = [("attack", attack); ("decay", decay); ("sustain", sustain);
       ("release", release);
       ("value.value", from (default ∅ opts) (options p) DEFAULTS "gain")] ∧
    settings (Of (voice s) KFilter) new
    = [("type", from (default ∅ opts) (options p) DEFAULTS "filter");
       ("frequency.value",
        from (default ∅ opts) (options p) DEFAULTS "freq")] ∧
    settings (Of (voice s) KSource) new
    = [("loop", from (default ∅ opts) (options p) DEFAULTS "loop");
       ("loopStart", from (default ∅ opts) (options p) DEFAULTS "loopStart");
       ("loopEnd", from (default ∅ opts) (options p) DEFAULTS "loopEnd")] ∧
    In (SetBuffer (Of (voice s) KSource) buffer) new ∧
    In (SetRate (Of (voice s) KSource)
          (pitch_rate (from (default ∅ opts) (options p) DEFAULTS "pitch")))
       new ∧
    index (from (default ∅ opts) (options p) DEFAULTS "adsr") 0
    = Return attack ∧
    index (from (default ∅ opts) (options p) DEFAULTS "adsr") 1
    = Return decay ∧
    index (from (default ∅ opts) (options p) DEFAULTS "adsr") 2
    = Return sustain ∧
    index (from (default ∅ opts) (options p) DEFAULTS "adsr") 3
    = Return release.
Proof.
  intros E.
  destruct (Player_start_returned buffer when duration opts destination p s E)
    as (-> & h & Hn & Hac).
  cbn [voice].
  pose proof (Sample_new_built buffer (default (Node Output) destination)
                (OptFunction (from (default ∅ opts) (options p) DEFAULTS))
                (ac p)) as Hb.
  unfold throws in Hb. rewrite Hn in Hb. cbn [fst snd resolver] in Hb.
  destruct (Hb eq_refl) as (x0 & x1 & x2 & x3 & H0 & H1 & H2 & H3 & Hc).
  rewrite Hac.
  destruct (settings_scheduling (Of (allocated (ac p)) KEnv)
              (allocated (ac p)) (Num (js_or when (currentTime (ac p))))
              duration
              (store {| voice := allocated (ac p); id := Some (nextId p);
                        onended := DeleteTracked |} h))
    as (sched & Hs & _ & Hnb & Hnr).
  exists (built (allocated (ac p)) buffer (default (Node Output) destination)
            (from (default ∅ opts) (options p) DEFAULTS) x0 x1 x2 x3
          ++ sched), x0, x1, x2, x3.
  split; [rewrite Hs; cbn; rewrite Hc, <- app_assoc; reflexivity|].
  assert (Hsett : ∀ n, settings n sched = []).
  { intros n.
    destruct (settings_scheduling n (allocated (ac p))
                (Num (js_or when (currentTime (ac p)))) duration
                (store {| voice := allocated (ac p); id := Some (nextId p);
                          onended := DeleteTracked |} h))
      as (sched' & Hs' & Hn' & _).
    rewrite Hs in Hs'. apply app_inv_head in Hs'. by subst sched'. }
  assert (Hin : ∀ a, In a (built (allocated (ac p)) buffer
                             (default (Node Output) destination)
                             (from (default ∅ opts) (options p) DEFAULTS)
                             x0 x1 x2 x3) →
                    In a (built (allocated (ac p)) buffer
                            (default (Node Output) destination)
                            (from (default ∅ opts) (options p) DEFAULTS)
                            x0 x1 x2 x3 ++ sched)).
  { intros a Ha. apply in_app_iff. by left. }
  split; [|split; [|split; [|split; [|split]]]].
  - unfold settings in *. rewrite omap_app, Hsett, app_nil_r.
    unfold built. cbn. decide_nodes. reflexivity.
  - unfold settings in *. rewrite omap_app, Hsett, app_nil_r.
    unfold built. cbn. decide_nodes. reflexivity.
  - unfold settings in *. rewrite omap_app, Hsett, app_nil_r.
    unfold built. cbn. decide_nodes. reflexivity.
  - apply Hin. unfold built. cbn. tauto.
  - apply Hin. unfold built. cbn. tauto.
  - done.
Qed.

Lemma Player_start_settings_witness :
  ∃ new,
    calls (ac (fst (Player_start (Some 0%nat) (Num 6) Undefined
                      (Some {[ "loop" := VBool true ]}) None one_voice)))
    = calls (ac one_voice) ++ new ∧
    settings (Of 1 KSource) new
    = [("loop", VBool true); ("loopStart", VNum 0); ("loopEnd", VNum 0)].
Proof.
  destruct (Player_start_settings (Some 0%nat) (Num 6) Undefined
              (Some {[ "loop" := VBool true ]}) None one_voice
              {| voice := 1; id := Some 2; onended := DeleteTracked |})
    as (new & a & d & su & r & Hc & _ & _ & Hs & _);
    [vm_compute; reflexivity|].
  exists new. split; [exact Hc|].
  etransitivity; [exact Hs|]. vm_compute. reflexivity.
Defined.

(** X11: when neither the call-time options nor the player's defaults have
    an [adsr] entry, the constructor in [start] cannot throw: whatever the
    buffer, the times and the other options are, the voice is built, given
    the next id and registered.  The call then returns unless the sink or
    the host throws on one of the calls of [s.start], and that error is the
    one thrown; on a sink and a host that throw on nothing it returns. *)
Theorem Player_start_returns (buffer : option nat) (when duration : jsnum)
    (opts : option (gmap string value)) (destination : option dest)
    (p : Player) :
  default ∅ opts !! "adsr" = None →
  options p !! "adsr" = None →
  nextId (fst (Player_start buffer when duration opts destination p))
  = nextId p + 1 ∧
  _playing (fst (Player_start buffer when duration opts destination p))
    !! nextId p = Some (allocated (ac p)) ∧
  match refused (refuses (ac p))
          (scheduling (ac p) (allocated (ac p))
             (Num (js_or when (currentTime (ac p)))) duration) with
  | None =>
      returned (Started (snd (Player_start buffer when duration opts
                                destination p))) = true
  | Some (_, e) =>
      snd (Player_start buffer when duration opts destination p) = Throw e
  end ∧
  ((∀ a, refuses (ac p) a = None) →
   returned (Started (snd (Player_start buffer when duration opts
                             destination p))) = true).
Proof.
  intros Ho Hp.
  destruct (Player_start_cases buffer when duration opts destination p)
    as (wiring & _ & Hc).
  assert (Ha : nullish (from (default ∅ opts) (options p) DEFAULTS "adsr")
               = false).
  { unfold from. rewrite Ho, Hp. reflexivity. }
  rewrite Ha in Hc. destruct Hc as (Hn & Hr & _ & Hc).
  split; [exact Hn|]. split; [rewrite Hr; apply lookup_insert_eq|].
  split.
  - destruct (refused _ _) as [[made_ e]|].
    + destruct Hc as (-> & _). reflexivity.
    + destruct Hc as (-> & _). reflexivity.
  - intros Hall. rewrite (refused_none _ _ Hall) in Hc.
    destruct Hc as (-> & _). reflexivity.
Qed.

Lemma Player_start_returns_witness :
  returned (Started (snd (Player_start None NaN (Num (-1))
                            (Some {[ "gain" := VNull ]}) None
                            fresh_player))) = true
  ∧ nextId (fst (Player_start (Some 0%nat) (Num (-1)) Undefined None None
                   strict_player)) = 2.
Proof.
  split.
  - apply (Player_start_returns None NaN (Num (-1))
             (Some {[ "gain" := VNull ]}) None fresh_player);
      vm_compute; reflexivity.
  - apply (Player_start_returns (Some 0%nat) (Num (-1)) Undefined None None
             strict_player); vm_compute; reflexivity.
Defined.

(** ** Stopping through the player *)

Lemma map_stopById_single (i : Z) (st : Host * gmap Z nat) :
  map_stopById [i] st = (fst (stopById i st), [snd (stopById i st)]).
Proof. cbn. destruct (stopById i st) as [st1 r]. reflexivity. Qed.

(** [Player.stop] is [stopById] mapped over its targets. *)
Lemma Player_stop_targets (when : jsnum) (ids : ids_arg) (p : Player) :
  fst (Player_stop when ids p)
  = with_state p (fst (map_stopById (targets ids p) (ac p, _playing p))) ∧
  results (snd (Player_stop when ids p))
  = snd (map_stopById (targets ids p) (ac p, _playing p)).
Proof.
  unfold Player_stop, targets. destruct (falsy ids) eqn:F.
  - destruct (map_stopById _ _) as [st rs]. done.
  - destruct ids as [|i|l]; [discriminate F| |].
    + rewrite map_stopById_single.
      destruct (stopById _ _) as [st r]. done.
    + destruct (map_stopById _ _) as [st rs]. done.
Qed.

(** The position-wise results of [ids.map(stopById)]: an id is reported
    where it first occurs, if it was registered. *)
Lemma map_stopById_results (l : list Z) : ∀ (h : Host) (t : gmap Z nat) n i,
  l !! n = Some i →
  snd (map_stopById l (h, t)) !! n
  = Some (if decide (is_Some (t !! i) ∧ i ∉ take n l) then Some i else None).
Proof.
  induction l as [|j l IH]; intros h t n i Hn; [done|].
  rewrite map_stopById_cons. destruct n as [|n]; cbn in Hn.
  - inversion Hn; subst j. cbn [snd lookup list_lookup take].
    destruct (t !! i) as [v|] eqn:E.
    + rewrite (stopById_present i v h t E). cbn.
      destruct (decide _) as [|H]; [done|].
      exfalso. apply H. split; [by eexists|]. apply not_elem_of_nil.
    + rewrite (stopById_absent i h t E). cbn.
      destruct (decide _) as [[H _]|]; [|done]. by destruct H.
  - cbn [snd]. change ((?x :: ?xs) !! S n) with (xs !! n).
    destruct (t !! j) as [v|] eqn:E.
    + rewrite (stopById_present j v h t E). cbn [fst].
      rewrite (IH _ _ n i Hn). f_equal. cbn [take].
      destruct (decide _) as [[H1 H2]|H]; destruct (decide _) as [[H3 H4]|H'];
        try done; exfalso.
      * apply lookup_delete_is_Some in H1 as [Hji H1].
        apply H'. split; [done|]. rewrite not_elem_of_cons. split; congruence.
      * apply H. rewrite not_elem_of_cons in H4. destruct H4 as [H4 H5].
        split; [|done]. apply lookup_delete_is_Some. split; congruence.
    + rewrite (stopById_absent j h t E). cbn [fst].
      rewrite (IH _ _ n i Hn). f_equal. cbn [take].
      destruct (decide _) as [[H1 H2]|H]; destruct (decide _) as [[H3 H4]|H'];
        try done; exfalso.
      * apply H'. split; [done|]. rewrite not_elem_of_cons. split; [|done].
        intros ->. rewrite E in H1. by destruct H1.
      * apply H. rewrite not_elem_of_cons in H4. tauto.
Qed.

(** X12: [stop] removes exactly its targets from the registry, whether they
    were registered or not, and nothing else: afterwards no target is
    registered and every other id is registered as before; there is one
    result for each target, and the id counter, the defaults, the clock and
    the pending end handlers are untouched. *)
Theorem Player_stop_removes_targets (when : jsnum) (ids : ids_arg)
    (p : Player) :
  (∀ k, _playing (fst (Player_stop when ids p)) !! k
        = if decide (k ∈ targets ids p) then None else _playing p !! k) ∧
  length (results (snd (Player_stop when ids p)))
  = length (targets ids p) ∧
  nextId (fst (Player_stop when ids p)) = nextId p ∧
  options (fst (Player_stop when ids p)) = options p ∧
  same_but_calls (ac (fst (Player_stop when ids p))) (ac p).
Proof.
  destruct (Player_stop_targets when ids p) as [Hp Hr]. rewrite Hp, Hr.
  destruct (map_stopById_spec (targets ids p) (ac p) (_playing p))
    as (h' & t' & rs & vs & Hm & Hf & _ & Hl & Hk & _).
  rewrite Hm. cbn. done.
Qed.

(** X13: in the results of [stop], the position of a target holds its id if
    the id was registered and does not occur earlier among the targets, and
    null otherwise: an id listed twice is stopped once and reported once,
    at its first occurrence. *)
Theorem Player_stop_results (when : jsnum) (ids : ids_arg) (p : Player)
    (n : nat) (i : Z) :
  targets ids p !! n = Some i →
  results (snd (Player_stop when ids p)) !! n
  = Some (if decide (is_Some (_playing p !! i) ∧ i ∉ take n (targets ids p))
          then Some i else None).
Proof.
  intros Hn. destruct (Player_stop_targets when ids p) as [_ Hr].
  rewrite Hr. by apply map_stopById_results.
Qed.

Lemma Player_stop_results_witness :
  targets (IdsArray [1; 7; 1]) one_voice !! 2%nat = Some 1
  ∧ results (snd (Player_stop (Num 9) (IdsArray [1; 7; 1]) one_voice))
      !! 2%nat = Some None.
Proof.
  assert (Ht : targets (IdsArray [1; 7; 1]) one_voice !! 2%nat = Some 1)
    by (vm_compute; reflexivity).
  split; [exact Ht|].
  rewrite (Player_stop_results (Num 9) (IdsArray [1; 7; 1]) one_voice
             2%nat 1 Ht).
  destruct (decide _) as [[_ H]|]; [|reflexivity].
  exfalso. apply H. left.
Defined.

Lemma Object_keys_empty : Object_keys ∅ = [].
Proof.
  destruct (Object_keys_spec ∅) as (_ & _ & Hl & _).
  rewrite map_size_empty in Hl. by apply nil_length_inv.
Qed.

(** X14: stopping is idempotent: repeating a call of [stop] with the same
    ids right after it stops nothing more, returns only nulls (the empty
    list when all voices were stopped) and leaves the player, its registry
    and the calls made on the host exactly as the first call left them. *)
Theorem Player_stop_twice (when when' : jsnum) (ids : ids_arg) (p : Player) :
  fst (Player_stop when' ids (fst (Player_stop when ids p)))
  = fst (Player_stop when ids p) ∧
  stopped_ids (snd (Player_stop when' ids (fst (Player_stop when ids p))))
  = [].
Proof.
  destruct (Player_stop_targets when ids p) as [Hp _].
  destruct (map_stopById_spec (targets ids p) (ac p) (_playing p))
    as (h' & t' & rs & vs & Hm & _ & _ & _ & Hk & _).
  rewrite Hm in Hp. cbn in Hp.
  set (p1 := fst (Player_stop when ids p)) in *.
  assert (Ht' : _playing p1 = t') by (rewrite Hp; reflexivity).
  assert (Hgone : ∀ i, i ∈ targets ids p → _playing p1 !! i = None).
  { intros i Hi. rewrite Ht', Hk. by destruct (decide _). }
  assert (Hnil : ∀ n, omap (λ x : option Z, x) (replicate n None) = []).
  { induction n; [reflexivity|]. cbn. exact IHn. }
  unfold Player_stop. destruct (falsy ids) eqn:F.
  - assert (Hall : ∀ i, i ∈ Object_keys (_playing p1) → False).
    { intros i Hi.
      destruct (Object_keys_spec (_playing p1)) as (_ & Hin & _).
      apply Hin in Hi. rewrite Ht', Hk in Hi.
      destruct (decide _) as [|Hn]; [by destruct Hi|].
      apply Hn. unfold targets. rewrite F.
      destruct (Object_keys_spec (_playing p)) as (_ & Hin' & _).
      apply Hin'. exact Hi. }
    destruct (Object_keys (_playing p1)) as [|i l];
      [|exfalso; apply (Hall i); left].
    cbn. by rewrite with_state_same.
  - unfold targets in Hgone. rewrite F in Hgone.
    destruct ids as [|i|l]; [done| |].
    + rewrite stopById_absent by (apply Hgone; left).
      by rewrite with_state_same.
    + rewrite map_stopById_absent by exact Hgone.
      rewrite with_state_same. cbn. split; [done|apply Hnil].
Qed.

Lemma stopped_now_quiet (h : Host) (vs : list nat) :
  count is_cleanup (vs ≫= stopped_now h) = 0%nat ∧
  creations (vs ≫= stopped_now h) = [] ∧
  connections (vs ≫= stopped_now h) = [] ∧
  start_times (vs ≫= stopped_now h) = [] ∧
  events (vs ≫= stopped_now h) = (λ v, ("stop", v, Undefined)) <$> vs.
Proof.
  unfold count, creations, connections, start_times, events.
  induction vs as [|v vs IH]; [done|].
  destruct IH as (H1 & H2 & H3 & H4 & H5).
  rewrite bind_cons. cbn.
  rewrite (bool_decide_eq_false_2 ("stop" = "ended")) by discriminate.
  rewrite H1, H2, H3, H4, H5. done.
Qed.

(** X15: [stop] tears nothing down: for every stopped voice it emits one
    ['stop'] event and schedules the release and the hard stop, and that is
    all; it disconnects no node, invokes no end-of-life callback, creates,
    connects and starts nothing, and the stopped voices keep their pending
    end handlers, so the release of the nodes is left to the source's
    finished notification. *)
Theorem Player_stop_defers_cleanup (when : jsnum) (ids : ids_arg)
    (p : Player) :
  ∃ (vs : list nat) new,
    calls (ac (fst (Player_stop when ids p))) = calls (ac p) ++ new ∧
    Some <$> vs
    = (_playing p !!.) <$> stopped_ids (snd (Player_stop when ids p)) ∧
    events new = (λ v, ("stop", v, Undefined)) <$> vs ∧
    length (release_times new) = length vs ∧
    count is_cleanup new = 0%nat ∧
    creations new = [] ∧ connections new = [] ∧ start_times new = [] ∧
    sources (ac (fst (Player_stop when ids p))) = sources (ac p).
Proof.
  destruct (Player_stop_targets when ids p) as [Hp Hr].
  destruct (map_stopById_spec (targets ids p) (ac p) (_playing p))
    as (h' & t' & rs & vs & Hm & Hf & Hc & _ & _ & _ & _ & Hv).
  rewrite Hm in Hp, Hr. cbn in Hp, Hr.
  exists vs, (vs ≫= stopped_now (ac p)). rewrite Hp. cbn.
  destruct (stopped_now_quiet (ac p) vs) as (H1 & H2 & H3 & H4 & H5).
  split; [exact Hc|]. split.
  { rewrite Hv. f_equal. unfold stopped_ids.
    destruct (snd (Player_stop when ids p)) as [r|rs']; cbn in Hr;
      by subst rs. }
  split; [exact H5|]. split.
  { rewrite release_times_stopped_now. by rewrite length_fmap. }
  destruct Hf as (_ & _ & Hs & _). done.
Qed.

(** ** The player and its output *)

Lemma Player_stop_nothing (when : jsnum) (ids : ids_arg) (p : Player) :
  _playing p = ∅ →
  fst (Player_stop when ids p) = p ∧
  stopped_ids (snd (Player_stop when ids p)) = [].
Proof.
  intros He.
  assert (Hnil : ∀ n, omap (λ x : option Z, x) (replicate n None) = []).
  { induction n; [reflexivity|]. cbn. exact IHn. }
  unfold Player_stop. destruct (falsy ids).
  - rewrite He, Object_keys_empty. cbn. rewrite <- He.
    by rewrite with_state_same.
  - destruct ids as [|i|l]; [done| |].
    + rewrite stopById_absent by (rewrite He; apply lookup_empty).
      by rewrite with_state_same.
    + rewrite map_stopById_absent
        by (intros i _; rewrite He; apply lookup_empty).
      rewrite with_state_same. cbn. split; [done|apply Hnil].
Qed.

(** X16: a new player creates its output node and nothing else, connects it
    exactly when it was given a destination rather than a context, takes
    the empty hash for missing defaults, and has nothing to stop: any call
    of [stop] on it returns no id and leaves it as it is. *)
Theorem Player_new_idle (h : Host) (destination : option dest)
    (opts : option (gmap string value)) (when : jsnum) (ids : ids_arg) :
  (∃ new,
     calls (ac (Player_new h destination opts)) = calls h ++ new ∧
     creations new = [Output] ∧
     connections new = match destination with
                       | Some d => [(Output, d)]
                       | None => []
                       end ∧
     events new = [] ∧ start_times new = []) ∧
  options (Player_new h destination opts) = default ∅ opts ∧
  fst (Player_stop when ids (Player_new h destination opts))
  = Player_new h destination opts ∧
  stopped_ids (snd (Player_stop when ids (Player_new h destination opts)))
  = [].
Proof.
  split; [|split; [reflexivity|]].
  - destruct destination as [d|]; cbn; eexists; split; try reflexivity;
      repeat split.
  - apply Player_stop_nothing. reflexivity.
Qed.

(** X17: [connect] only adds a connection of the output: the registry, the
    id counter, the defaults and the pending end handlers are as before,
    nothing is disconnected (connecting twice leaves both connections), and
    a [start] after it returns the same voice under the same id as without
    it. *)
Theorem Player_connect_only_connects (d d' : dest) (p : Player)
    (buffer : option nat) (when duration : jsnum)
    (opts : option (gmap string value)) (destination : option dest) :
  calls (ac (Player_connect d p)) = calls (ac p) ++ [Connect Output d] ∧
  calls (ac (Player_connect d' (Player_connect d p)))
  = calls (ac p) ++ [Connect Output d; Connect Output d'] ∧
  _playing (Player_connect d p) = _playing p ∧
  nextId (Player_connect d p) = nextId p ∧
  options (Player_connect d p) = options p ∧
  sources (ac (Player_connect d p)) = sources (ac p) ∧
  snd (Player_start buffer when duration opts destination
         (Player_connect d p))
  = snd (Player_start buffer when duration opts destination p).
Proof.
  split; [reflexivity|]. split; [cbn; by rewrite <- app_assoc|].
  do 4 (split; [reflexivity|]).
  destruct (Player_start_cases buffer when duration opts destination p)
    as (w1 & _ & H1).
  destruct (Player_start_cases buffer when duration opts destination
              (Player_connect d p)) as (w2 & _ & H2).
  change (options (Player_connect d p)) with (options p) in H2.
  change (nextId (Player_connect d p)) with (nextId p) in H2.
  change (allocated (ac (Player_connect d p))) with (allocated (ac p)) in H2.
  change (refuses (ac (Player_connect d p))) with (refuses (ac p)) in H2.
  change (currentTime (ac (Player_connect d p))) with (currentTime (ac p))
    in H2.
  rewrite (scheduling_frame (ac p) (ac (Player_connect d p))) in H2
    by reflexivity.
  destruct (nullish _).
  - destruct H1 as (-> & _), H2 as (-> & _). reflexivity.
  - destruct H1 as (_ & _ & _ & H1), H2 as (_ & _ & _ & H2).
    destruct (refused _ _) as [[made_ e]|];
      destruct H1 as (-> & _), H2 as (-> & _); reflexivity.
Qed.

(** ** The registry in the states a player can reach *)

Lemma consistent_new (h : Host) (destination : option dest)
    (opts : option (gmap string value)) :
  fresh_host h → consistent (Player_new h destination opts).
Proof.
  intros Hf.
  assert (Hs : sources (ac (Player_new h destination opts)) = sources h)
    by (destruct destination; reflexivity).
  assert (Ha : allocated (ac (Player_new h destination opts)) = allocated h)
    by (destruct destination; reflexivity).
  unfold consistent. rewrite Hs, Ha. cbn [nextId _playing Player_new].
  split; [lia|]. split; [intros i v H; by rewrite lookup_empty in H|].
  split.
  - intros v s H. destruct (Hf v s H) as (H1 & H2 & H3).
    split; [done|]. split; [done|]. intros i Hi. congruence.
  - intros v v' s s' i H _ Hi. destruct (Hf v s H) as (_ & _ & H3). congruence.
Qed.

Lemma consistent_start (buffer : option nat) (when duration : jsnum)
    (opts : option (gmap string value)) (destination : option dest)
    (p : Player) :
  consistent p →
  consistent (fst (Player_start buffer when duration opts destination p)).
Proof.
  intros (I1 & I2 & I3 & I4).
  pose proof (Player_start_effect buffer when duration opts destination p)
    as (_ & _ & _ & Ha & Hm).
  assert (Hcase :
    (nextId (fst (Player_start buffer when duration opts destination p))
     = nextId p + 1 ∧
     _playing (fst (Player_start buffer when duration opts destination p))
     = <[nextId p := allocated (ac p)]> (_playing p) ∧
     sources (ac (fst (Player_start buffer when duration opts
                         destination p)))
     = <[allocated (ac p) := {| voice := allocated (ac p);
                                id := Some (nextId p);
                                onended := DeleteTracked |}]>
         (sources (ac p))) ∨
    (nextId (fst (Player_start buffer when duration opts destination p))
     = nextId p ∧
     _playing (fst (Player_start buffer when duration opts destination p))
     = _playing p ∧
     sources (ac (fst (Player_start buffer when duration opts
                         destination p)))
     = sources (ac p))).
  { destruct (snd (Player_start buffer when duration opts destination p))
      as [s|e].
    - left. destruct Hm as (-> & Hm). exact Hm.
    - destruct Hm as [Hm|Hm]; [by right|by left]. }
  clear Hm. unfold consistent. rewrite Ha.
  destruct Hcase as [(Hn & Hp & Hs)|Hm].
  - rewrite Hn, Hp, Hs.
    split; [lia|]. split; [|split].
    + intros i v H. destruct (decide (i = nextId p)) as [->|Hi].
      * rewrite lookup_insert_eq in H. inversion H; subst v.
        apply lookup_insert_eq.
      * rewrite lookup_insert_ne in H by congruence.
        pose proof (I2 i v H) as Hv. destruct (I3 v _ Hv) as (Hlt & _).
        rewrite lookup_insert_ne by lia. exact Hv.
    + intros v s H. destruct (decide (v = allocated (ac p))) as [->|Hv].
      * rewrite lookup_insert_eq in H. inversion H; subst s. cbn.
        split; [lia|]. split; [done|]. intros i Hi. inversion Hi. lia.
      * rewrite lookup_insert_ne in H by congruence.
        destruct (I3 v s H) as (H1 & H2 & H3).
        split; [lia|]. split; [done|]. intros i Hi. specialize (H3 i Hi). lia.
    + intros v v' s s' i H H' Hi Hi'.
      destruct (decide (v = allocated (ac p))) as [->|Hv];
        destruct (decide (v' = allocated (ac p))) as [->|Hv'];
        try done.
      * rewrite lookup_insert_eq in H. inversion H; subst s. cbn in Hi.
        rewrite lookup_insert_ne in H' by congruence.
        destruct (I3 v' s' H') as (_ & _ & H3). specialize (H3 i Hi').
        inversion Hi. lia.
      * rewrite lookup_insert_eq in H'. inversion H'; subst s'. cbn in Hi'.
        rewrite lookup_insert_ne in H by congruence.
        destruct (I3 v s H) as (_ & _ & H3). specialize (H3 i Hi).
        inversion Hi'. lia.
      * rewrite lookup_insert_ne in H, H' by congruence.
        exact (I4 v v' s s' i H H' Hi Hi').
  - destruct Hm as (Hn & Hp & Hs). rewrite Hn, Hp, Hs.
    split; [done|]. split; [done|]. split; [|done].
    intros v s H. destruct (I3 v s H) as (H1 & H2). split; [lia|done].
Qed.

Lemma consistent_stop (when : jsnum) (ids : ids_arg) (p : Player) :
  consistent p → consistent (fst (Player_stop when ids p)).
Proof.
  intros (I1 & I2 & I3 & I4).
  destruct (Player_stop_targets when ids p) as [Hp _].
  destruct (map_stopById_spec (targets ids p) (ac p) (_playing p))
    as (h' & t' & rs & vs & Hm & (_ & _ & Hs & Ha) & _ & _ & Hk & _).
  rewrite Hm in Hp. rewrite Hp. unfold consistent. cbn. rewrite Hs, Ha.
  split; [done|]. split; [|done].
  intros i v H. rewrite Hk in H. destruct (decide _); [done|]. by apply I2.
Qed.

Lemma consistent_fire (v : nat) (p : Player) :
  consistent p → consistent (with_state p (fire v (ac p, _playing p))).
Proof.
  intros (I1 & I2 & I3 & I4). unfold fire. cbn [fst snd].
  destruct (sources (ac p) !! v) as [s|] eqn:E;
    [|by rewrite with_state_same].
  unfold consistent, source_onended. cbn.
  assert (Hsub : ∀ i w, run_callback s (_playing p) !! i = Some w →
                        _playing p !! i = Some w ∧ w ≠ v).
  { intros i w H. unfold run_callback in H.
    assert (Hp : _playing p !! i = Some w).
    { destruct (onended s); [done|]. destruct (id s) as [j|]; [|done].
      apply lookup_delete_Some in H. tauto. }
    split; [done|]. intros ->.
    pose proof (I2 i v Hp) as Hv. rewrite E in Hv. inversion Hv; subst s.
    cbn in H. by rewrite lookup_delete_eq in H. }
  split; [done|]. split; [|split].
  - intros i w H. destruct (Hsub i w H) as [Hp Hne].
    rewrite lookup_delete_ne by congruence. by apply I2.
  - intros w s' H. apply lookup_delete_Some in H as [_ H]. by apply I3.
  - intros w w' s1 s2 i H H' Hi Hi'.
    apply lookup_delete_Some in H as [_ H].
    apply lookup_delete_Some in H' as [_ H'].
    exact (I4 w w' s1 s2 i H H' Hi Hi').
Qed.

Lemma consistent_step (o : op) (p : Player) :
  consistent p → consistent (fst (step o p)).
Proof.
  intros I. destruct o as [buffer when duration opts destination|when ids|v|dt];
    cbn.
  - pose proof (consistent_start buffer when duration opts destination p I).
    by destruct (Player_start _ _ _ _ _ _).
  - pose proof (consistent_stop when ids p I).
    by destruct (Player_stop _ _ _).
  - by apply consistent_fire.
  - exact I.
Qed.

Lemma consistent_run (ops : list op) : ∀ p : Player,
  consistent p → consistent (fst (run ops p)).
Proof.
  induction ops as [|o ops IH]; intros p I; [exact I|].
  rewrite run_cons. cbn [fst]. apply IH, consistent_step, I.
Qed.

Lemma fresh_host_at_5 : fresh_host host_at_5.
Proof. intros v s H. cbn in H. by rewrite lookup_empty in H. Qed.

Lemma consistent_next_free (p : Player) :
  consistent p → _playing p !! nextId p = None.
Proof.
  intros (_ & I2 & I3 & _).
  destruct (_playing p !! nextId p) as [v|] eqn:E; [|reflexivity].
  destruct (I3 v _ (I2 _ v E)) as (_ & _ & H). specialize (H _ eq_refl). lia.
Qed.

Lemma consistent_fire_registry (v : nat) (p : Player) :
  consistent p →
  ∀ k, snd (fire v (ac p, _playing p)) !! k
       = if decide (_playing p !! k = Some v) then None else _playing p !! k.
Proof.
  intros (I1 & I2 & I3 & I4) k. unfold fire. cbn [fst snd].
  destruct (sources (ac p) !! v) as [s|] eqn:E.
  - unfold source_onended, run_callback. cbn [snd].
    destruct (decide (_playing p !! k = Some v)) as [Hk|Hk].
    + pose proof (I2 k v Hk) as Hv. rewrite E in Hv. inversion Hv. cbn.
      apply lookup_delete_eq.
    + destruct (onended s); [reflexivity|].
      destruct (id s) as [i|] eqn:Ei; [|reflexivity].
      destruct (decide (i = k)) as [->|Hik];
        [|by rewrite lookup_delete_ne].
      rewrite lookup_delete_eq.
      destruct (_playing p !! k) as [w|] eqn:Ew; [|reflexivity].
      exfalso. apply Hk. f_equal.
      exact (I4 w v _ s k (I2 k w Ew) E eq_refl Ei).
  - destruct (decide (_playing p !! k = Some v)) as [Hk|Hk]; [|reflexivity].
    pose proof (I2 k v Hk) as Hv. congruence.
Qed.

(** ** The ids given by a run *)

Lemma step_start (buffer : option nat) (when duration : jsnum)
    (opts : option (gmap string value)) (destination : option dest)
    (p : Player) :
  step (OpStart buffer when duration opts destination) p
  = (fst (Player_start buffer when duration opts destination p),
     Started (snd (Player_start buffer when duration opts destination p))).
Proof. cbn. by destruct (Player_start _ _ _ _ _ _). Qed.

(** A call gives an id exactly when it is a [start] whose constructor
    returns; the id is the counter, which then moves by one. *)
Lemma given_spec (o : op) (p : Player) :
  consistent p →
  given o p = (if constructs (options p) o then Some (nextId p) else None) ∧
  nextId (fst (step o p))
  = (if constructs (options p) o then nextId p + 1 else nextId p).
Proof.
  intros (_ & _ & I3 & _).
  destruct o as [buffer when duration opts destination|when ids|v|dt].
  - unfold given. rewrite step_start. cbn [fst constructs].
    destruct (Player_start_cases buffer when duration opts destination p)
      as (wiring & _ & Hc).
    destruct (nullish _); cbn [negb].
    + destruct Hc as (_ & Hn & _ & Hs & _). rewrite Hs. split; [|exact Hn].
      destruct (sources (ac p) !! allocated (ac p)) as [s|] eqn:E;
        [|reflexivity].
      destruct (I3 _ _ E) as (Hlt & _). lia.
    + destruct Hc as (Hn & _ & Hs & _). rewrite Hs, lookup_insert_eq.
      split; [reflexivity|exact Hn].
  - split; [reflexivity|]. cbn [constructs]. cbn.
    pose proof (Player_stop_nextId when ids p).
    by destruct (Player_stop _ _ _).
  - split; reflexivity.
  - split; reflexivity.
Qed.

Lemma run_assigned (ops : list op) : ∀ p : Player,
  consistent p →
  assigned_ids ops p
  = seqZ (nextId p)
      (Z.of_nat (length (List.filter (constructs (options p)) ops))) ∧
  nextId (fst (run ops p))
  = nextId p + Z.of_nat (length (List.filter (constructs (options p)) ops)).
Proof.
  induction ops as [|o ops IH]; intros p I.
  - cbn. split; [reflexivity|lia].
  - destruct (given_spec o p I) as (Hg & Hn).
    destruct (IH (fst (step o p)) (consistent_step o p I)) as (Hids & Hnext).
    rewrite step_options in Hids, Hnext.
    rewrite run_cons. cbn [fst assigned_ids List.filter]. rewrite Hg.
    destruct (constructs (options p) o); rewrite Hn in *.
    + cbn [length]. rewrite Hids, Hnext. split; [|lia].
      rewrite (seqZ_cons (nextId p)) by lia. do 2 f_equal; lia.
    + split; [exact Hids|exact Hnext].
Qed.







(** A [start] that throws in [s.start] keeps the id it was given: on the
    strict host the first call throws, its voice holds the id 1, and the
    second call returns the id 2. *)
Example id_kept_by_throwing_start :
  assigned_ids starts_negative_when strict_player = [1; 2] ∧
  started_ids (snd (run starts_negative_when strict_player)) = [2] ∧
  _playing (fst (run starts_negative_when strict_player)) !! 1
  = Some 0%nat.
Proof. vm_compute. repeat split. Qed.

(** X18: in every state a player reaches from its creation on a fresh host,
    by calls of [start] and [stop], end notifications and clock advances,
    each registered id is one of the ids the calls of [start] gave to the
    voices they constructed, lies from 1 up to the counter, and belongs to a
    voice that still awaits its end notification under that very id.  This
    includes the voices registered by a [start] that threw in [s.start]. *)
Theorem registry_reachable (h : Host) (destination : option dest)
    (opts : option (gmap string value)) (ops : list op) (i : Z) (v : nat) :
  fresh_host h →
  _playing (fst (run ops (Player_new h destination opts))) !! i = Some v →
  i ∈ assigned_ids ops (Player_new h destination opts) ∧
  1 ≤ i < nextId (fst (run ops (Player_new h destination opts))) ∧
  sources (ac (fst (run ops (Player_new h destination opts)))) !! v
  = Some {| voice := v; id := Some i; onended := DeleteTracked |}.
Proof.
  intros Hf Hi.
  destruct (consistent_run ops _ (consistent_new h destination opts Hf))
    as (_ & I2 & I3 & _).
  destruct (run_assigned ops _ (consistent_new h destination opts Hf))
    as (Hids & Hn).
  pose proof (I2 i v Hi) as Hv.
  destruct (I3 v _ Hv) as (_ & _ & Hr). specialize (Hr i eq_refl).
  split; [|split; [exact Hr|exact Hv]].
  rewrite Hids. apply elem_of_seqZ. cbn [nextId Player_new] in *. lia.
Qed.

Lemma fresh_strict_host : fresh_host strict_host.
Proof. intros v s H. cbn in H. by rewrite lookup_empty in H. Qed.

Lemma registry_reachable_witness :
  3 ∈ assigned_ids three_starts fresh_player
  ∧ sources (ac (fst (run three_starts fresh_player))) !! 2%nat
    = Some {| voice := 2; id := Some 3; onended := DeleteTracked |}
  ∧ 1 ∈ assigned_ids starts_negative_when strict_player.
Proof.
  destruct (registry_reachable host_at_5 (Some (External 0)) None
              three_starts 3 2 fresh_host_at_5) as (H1 & _ & H3);
    [vm_compute; reflexivity|].
  destruct (registry_reachable strict_host (Some (External 0)) None
              starts_negative_when 1 0 fresh_strict_host) as (H4 & _);
    [vm_compute; reflexivity|].
  split; [exact H1|]. split; [exact H3|exact H4].
Defined.

(** X19: in every state a player reaches, two different registered ids name
    two different voices: no voice is registered twice. *)
Theorem registry_injective (h : Host) (destination : option dest)
    (opts : option (gmap string value)) (ops : list op) (i j : Z)
    (v w : nat) :
  fresh_host h →
  i ≠ j →
  _playing (fst (run ops (Player_new h destination opts))) !! i = Some v →
  _playing (fst (run ops (Player_new h destination opts))) !! j = Some w →
  v ≠ w.
Proof.
  intros Hf Hij Hi Hj ->.
  destruct (consistent_run ops _ (consistent_new h destination opts Hf))
    as (_ & I2 & _).
  pose proof (I2 i w Hi) as H1. pose proof (I2 j w Hj) as H2.
  rewrite H1 in H2. inversion H2. contradiction.
Qed.

Lemma registry_injective_witness : (1 ≠ 2)%nat.
Proof.
  apply (registry_injective host_at_5 (Some (External 0)) None three_starts
           2 3 1 2 fresh_host_at_5); [discriminate| |];
    vm_compute; reflexivity.
Defined.

(** X20: in every state a player reaches, the end notification of a voice
    removes from the registry exactly the id of that voice, if it is still
    registered, and no other: after an explicit stop the late notification
    finds its id gone and removes nothing, and in both cases the voice no
    longer awaits a notification. *)
Theorem ended_removes_own_id (h : Host) (destination : option dest)
    (opts : option (gmap string value)) (ops : list op) (v : nat) (k : Z) :
  fresh_host h →
  _playing (fst (run (ops ++ [OpEnded v]) (Player_new h destination opts)))
    !! k
  = (if decide (_playing (fst (run ops (Player_new h destination opts))) !! k
                = Some v)
     then None
     else _playing (fst (run ops (Player_new h destination opts))) !! k) ∧
  sources (ac (fst (run (ops ++ [OpEnded v])
                      (Player_new h destination opts)))) !! v = None ∧
  nextId (fst (run (ops ++ [OpEnded v]) (Player_new h destination opts)))
  = nextId (fst (run ops (Player_new h destination opts))).
Proof.
  intros Hf.
  pose proof (consistent_run ops _ (consistent_new h destination opts Hf))
    as I.
  assert (Hrun : ∀ l p, fst (run (l ++ [OpEnded v]) p)
                        = with_state (fst (run l p))
                            (fire v (ac (fst (run l p)),
                                     _playing (fst (run l p))))).
  { induction l as [|o l IH]; intros p; [reflexivity|].
    rewrite <- app_comm_cons, !run_cons. cbn [fst]. apply IH. }
  rewrite Hrun. cbn [_playing ac nextId with_state].
  split; [by apply consistent_fire_registry|]. split; [|reflexivity].
  unfold fire. cbn [fst snd].
  destruct (sources (ac (fst (run ops (Player_new h destination opts))))
              !! v) as [s|] eqn:E; [|exact E].
  cbn. apply lookup_delete_eq.
Qed.

Lemma ended_removes_own_id_witness :
  _playing (fst (run (three_starts ++ [OpEnded 1]) fresh_player)) !! 2 = None
  ∧ _playing (fst (run (three_starts ++ [OpEnded 1]) fresh_player)) !! 3
    = Some 2%nat.
Proof.
  destruct (ended_removes_own_id host_at_5 (Some (External 0)) None
              three_starts 1 2 fresh_host_at_5) as (H2 & _).
  destruct (ended_removes_own_id host_at_5 (Some (External 0)) None
              three_starts 1 3 fresh_host_at_5) as (H3 & _).
  split.
  - etransitivity; [exact H2|]. vm_compute. reflexivity.
  - etransitivity; [exact H3|]. vm_compute. reflexivity.
Defined.

(** X21: in every state a player reaches, a [start] that returns and a
    [stop] of the id it returned undo each other on the registry: the id is
    new (not registered before, and not 0), [stop] reports it, and the
    registry is again what it was before the [start]. *)
Theorem start_stop_round_trip (h : Host) (destination : option dest)
    (opts : option (gmap string value)) (ops : list op)
    (buffer : option nat) (when duration when' : jsnum)
    (opts' : option (gmap string value)) (destination' : option dest)
    (s : Sample) :
  fresh_host h →
  snd (Player_start buffer when duration opts' destination'
         (fst (run ops (Player_new h destination opts)))) = Return s →
  ∃ i,
    id s = Some i ∧ i ≠ 0 ∧
    _playing (fst (run ops (Player_new h destination opts))) !! i = None ∧
    snd (Player_stop when' (IdsOne i)
           (fst (Player_start buffer when duration opts' destination'
                   (fst (run ops (Player_new h destination opts))))))
    = One (Some i) ∧
    _playing (fst (Player_stop when' (IdsOne i)
                     (fst (Player_start buffer when duration opts'
                             destination'
                             (fst (run ops (Player_new h destination
                                              opts)))))))
    = _playing (fst (run ops (Player_new h destination opts))).
Proof.
  intros Hf E.
  set (p := fst (run ops (Player_new h destination opts))) in *.
  pose proof (consistent_run ops _ (consistent_new h destination opts Hf))
    as I. fold p in I.
  pose proof (consistent_next_free p I) as Hfree. destruct I as (I1 & _).
  pose proof (Player_start_effect buffer when duration opts' destination' p)
    as (_ & _ & _ & _ & Hm).
  rewrite E in Hm. destruct Hm as (-> & _ & Hp & _).
  exists (nextId p). split; [reflexivity|]. split; [lia|].
  split; [exact Hfree|].
  unfold Player_stop. cbn [falsy].
  destruct (Z.eqb_spec (nextId p) 0) as [H0|_]; [lia|].
  rewrite (stopById_present (nextId p) (allocated (ac p)))
    by (rewrite Hp; apply lookup_insert_eq).
  cbn. split; [reflexivity|].
  rewrite Hp, delete_insert_eq. by apply delete_id.
Qed.

Lemma start_stop_round_trip_witness :
  _playing (fst (Player_stop (Num 9) (IdsOne 2)
                   (fst (Player_start (Some 0%nat) (Num 6) Undefined None
                           None one_voice))))
  = _playing one_voice.
Proof.
  destruct (start_stop_round_trip host_at_5 (Some (External 0)) None
              [OpStart (Some 0%nat) Undefined Undefined None None]
              (Some 0%nat) (Num 6) Undefined (Num 9) None None
              {| voice := 1; id := Some 2; onended := DeleteTracked |}
              fresh_host_at_5)
    as (i & Hi & _ & _ & _ & H); [vm_compute; reflexivity|].
  inversion Hi; subst i. revert H. vm_compute. exact (λ H, H).
Defined.

(** ** The end notification of a constructed voice *)






(** ** Voices do not touch one another *)

(** X22: a [start] acts on the new voice only: every call it makes on the
    host creates, sets, connects, starts or stops a node of the voice it
    returns, and every event it emits is an event of that voice; the nodes
    of the voices already playing, and the player's output, receive no
    call. *)
Theorem Player_start_isolated (buffer : option nat) (when duration : jsnum)
    (opts : option (gmap string value)) (destination : option dest)
    (p : Player) (s : Sample) :
  snd (Player_start buffer when duration opts destination p) = Return s →
  ∃ new,
    calls (ac (fst (Player_start buffer when duration opts destination p)))
    = calls (ac p) ++ new ∧
    forallb (concerns (voice s)) new = true ∧
    voice s = allocated (ac p).
Proof.
  intros E.
  destruct (Player_start_returned buffer when duration opts destination p s E)
    as (-> & h & Hn & Hac).
  cbn [voice].
  pose proof (Sample_new_built buffer (default (Node Output) destination)
                (OptFunction (from (default ∅ opts) (options p) DEFAULTS))
                (ac p)) as Hb.
  unfold throws in Hb. rewrite Hn in Hb. cbn [fst snd resolver] in Hb.
  destruct (Hb eq_refl) as (x0 & x1 & x2 & x3 & _ & _ & _ & _ & Hc).
  assert (Hv : bool_decide (allocated (ac p) = allocated (ac p)) = true)
    by (by apply bool_decide_eq_true_2).
  rewrite Hac.
  unfold Sample_start. destruct (js_gt0 duration); cbn;
    (eexists; split; [rewrite Hc, <- ?app_assoc; reflexivity|];
     split; [|reflexivity]; unfold built; cbn; rewrite ?Hv; reflexivity).
Qed.

Lemma Player_start_isolated_witness :
  ∃ new,
    calls (ac (fst (Player_start (Some 0%nat) (Num 6) (Num 2) None None
                      one_voice)))
    = calls (ac one_voice) ++ new ∧
    forallb (concerns 1) new = true.
Proof.
  destruct (Player_start_isolated (Some 0%nat) (Num 6) (Num 2) None None
              one_voice
              {| voice := 1; id := Some 2; onended := DeleteTracked |})
    as (new & Hc & Hf & _); [vm_compute; reflexivity|].
  exists new. split; [exact Hc|exact Hf].
Defined.

(** ** Starting a voice without a duration *)

(** X23: [start] schedules a stop only for a positive duration: with the
    duration omitted, [NaN], zero or negative it emits the ['start'] event,
    starts the envelope and the source at [when] as given, and asks for no
    release and no hard stop, so the voice plays until its source ends. *)
Theorem Sample_start_no_duration (v : nat) (when duration : jsnum)
    (h : Host) :
  duration = Undefined ∨ duration = NaN ∨
  (∃ d, duration = Num d ∧ (d <= 0)%Q) →
  calls (Sample_start v when duration h)
  = calls h ++ [Event "start" v when;
                Start (Of v KEnv) when;
                Start (Of v KSource) when].
Proof.
  intros H. unfold Sample_start.
  assert (Hg : js_gt0 duration = false).
  { destruct H as [-> | [-> | (d & -> & Hd)]]; try reflexivity.
    cbn. apply Qle_bool_iff in Hd. by rewrite Hd. }
  rewrite Hg. reflexivity.
Qed.

Lemma Sample_start_no_duration_witness :
  calls (Sample_start 0 (Num 6) (Num (-1)) host_at_5)
  = [Event "start" 0 (Num 6);
     Start (Of 0 KEnv) (Num 6);
     Start (Of 0 KSource) (Num 6)].
Proof.
  apply (Sample_start_no_duration 0 (Num 6) (Num (-1)) host_at_5).
  right. right. exists (-1)%Q. split; [reflexivity|discriminate].
Defined.

(** ** Layered options *)

(** X24: the three tiers resolve like one hash in which the call-time
    entries lie over the player's defaults and these over the global
    defaults: for every name the accessor returns what the left-biased union
    of the three hashes holds, and [undefined] when none of them has the
    name. *)
Theorem from_is_union (a b c : gmap string value) (name : string) :
  from a b c name = get (a ∪ b ∪ c) name ∧
  (a !! name = None → b !! name = None → c !! name = None →
   from a b c name = VUndef).
Proof.
  unfold from, get. rewrite !lookup_union.
  destruct (a !! name), (b !! name), (c !! name); cbn; done.
Qed.

Lemma from_is_union_witness :
  from {[ "gain" := VNum 2 ]} ∅ DEFAULTS "volume" = VUndef.
Proof.
  apply (from_is_union {[ "gain" := VNum 2 ]} ∅ DEFAULTS "volume");
    vm_compute; reflexivity.
Defined.

(** ** The rate as a function of the pitch *)

(** X25: the rate is positive for every pitch, a sum of cents gives the
    product of the rates, and the opposite pitch gives the inverse rate. *)
Theorem centsToRate_multiplicative (a b : R) :
  (0 < centsToRate a)%R ∧
  centsToRate (a + b) = (centsToRate a * centsToRate b)%R ∧
  centsToRate (- a) = (/ centsToRate a)%R.
Proof.
  unfold centsToRate. split; [apply exp_pos|]. split.
  - rewrite <- Rpower_plus. f_equal. lra.
  - rewrite <- Rpower_Ropp. f_equal. lra.
Qed.

(** X26: the rate grows strictly with the pitch, and an octave doubles it:
    1200 cents, that is a pitch of 12 semitones, give the rate 2. *)
Theorem centsToRate_increasing (a b : R) :
  ((a < b)%R → (centsToRate a < centsToRate b)%R) ∧
  centsToRate 1200 = 2%R ∧
  pitch_rate (VNum 12) = Rate 2%R.
Proof.
  assert (H2 : centsToRate 1200 = 2%R).
  { unfold centsToRate. replace (1200 / 1200)%R with 1%R by lra.
    apply Rpower_1. lra. }
  split; [|split; [exact H2|]].
  - intros Hab. unfold centsToRate. apply Rpower_lt; lra.
  - unfold pitch_rate. f_equal. rewrite <- H2. f_equal.
    rewrite Q2R_mult. unfold Q2R. simpl. lra.
Qed.

Lemma centsToRate_increasing_witness :
  (centsToRate 0 < centsToRate 100)%R.
Proof.
  apply (proj1 (centsToRate_increasing 0 100)). lra.
Defined.
